(** * Corsair LCD tool: packet framing, LED smoothing and the LED sink

    A shallow embedding of [corsair_lcd_tool.py] ([CorsairCommand],
    [UpdateDeviceThread.make_commands]) and of [led_controller_openrgb.py]
    ([LEDController], [LEDWorker]), followed by the properties proved
    about them.

    Conventions.
    - A Python [int] is a [Z]; a [bytes] object is a [list byte].
    - A call that can raise returns an [option]; [None] is the exception.
    - A Python [float] is a rational [Q], and every float operation is
      the exact operation followed by a rounding [fl] to binary64.  The
      rounding is a parameter ([FloatModel]); what is assumed of it
      ([FloatLaws]) is the standard model of round-to-nearest: a relative
      error of at most [2^-53] plus an absolute error of at most
      [2^-1075], and no error at all on multiples of [1/4] whose
      numerator fits 53 bits.  [binary64] is that rounding itself, for
      values below the overflow threshold; the controller's values stay
      below [2^10]. *)

From Stdlib Require Import ZArith QArith Qround Qabs Qpower Qreduction.
From Stdlib Require Import Lia Lqa Bool String.
From Stdlib Require Import Strings.Byte.
From stdpp Require Import list.

Local Open Scope Z_scope.

(** ** Python primitives *)

Abbreviation bytes := (list byte).

(** [len(b)] *)
Definition len {A} (l : list A) : Z := Z.of_nat (length l).

(** [b[:k]] with Python's treatment of negative and oversized bounds. *)
Definition slice_to {A} (l : list A) (k : Z) : list A :=
  if k <? 0 then take (Z.to_nat (len l + k)) l else take (Z.to_nat k) l.

(** [b[k:]] *)
Definition slice_from {A} (l : list A) (k : Z) : list A :=
  if k <? 0 then drop (Z.to_nat (len l + k)) l else drop (Z.to_nat k) l.

(** [b'\x00' * n]; a count that is zero or negative gives [b'']. *)
Definition zeros (n : Z) : bytes := replicate (Z.to_nat n) x00.

(** One element of [bytes([...])]: [ValueError] outside [range(256)]. *)
Definition byte_of_int (z : Z) : option byte :=
  if (0 <=? z) && (z <? 256) then Byte.of_N (Z.to_N z) else None.

Definition int_of_byte (b : byte) : Z := Z.of_N (Byte.to_N b).

(** [bytes([z1, ..., zn])] *)
Definition bytes_of_ints (zs : list Z) : option bytes := mapM byte_of_int zs.

(** [n.to_bytes(2, byteorder='little')]: [OverflowError] when [n] is
    negative or does not fit 16 bits. *)
Definition to_bytes_le2 (n : Z) : option bytes :=
  if (0 <=? n) && (n <? 65536)
  then bytes_of_ints [n mod 256; n / 256]
  else None.

(** ** [CorsairCommand] *)

Record CorsairCommand := mkCorsairCommand {
  opcode : Z;
  unknown1 : Z;
  unknown2 : Z;
  is_end : bool;
  part_num : Z;
  datalen : Z;
  data : bytes
}.

Definition HEADER_SIZE : Z := 8.

Definition to_bytes (c : CorsairCommand) : option bytes :=
  hd ← bytes_of_ints [opcode c; unknown1 c; unknown2 c;
                       if is_end c then 1 else 0];
  pn ← to_bytes_le2 (part_num c);
  dl ← to_bytes_le2 (datalen c);
  Some (hd ++ pn ++ dl ++ data c).

Definition is_start (c : CorsairCommand) : bool := part_num c =? 0.

(** ** [UpdateDeviceThread.make_commands]

    [make_commands] is a generator.  Its state between two [yield]s is
    the remaining [data] and the running [part_num]; [next_command] is
    one resumption: [None] when the [while data] test fails (the
    generator is exhausted), otherwise the command yielded and the state
    the generator is left in. *)

Record gen_state := mkGen { g_data : bytes; g_part_num : Z }.

Definition next_command (op max_len : Z) (st : gen_state)
  : option (CorsairCommand * gen_state) :=
  let real_max_len := max_len - HEADER_SIZE in
  let data := g_data st in
  match data with
  | [] => None
  | _ :: _ =>
      let padded_data :=
        if len data <? real_max_len
        then data ++ zeros (real_max_len - len data)
        else slice_to data real_max_len in
      let datalen := Z.min real_max_len (len data) in
      let data' := slice_from data real_max_len in
      Some (mkCorsairCommand op 5 64
              (match data' with [] => true | _ => false end)
              (g_part_num st) datalen padded_data,
            mkGen data' (g_part_num st + 1))
  end.

(** The first [n] commands the generator yields (fewer when it is
    exhausted earlier). *)
Fixpoint gen_take (op max_len : Z) (n : nat) (st : gen_state)
  : list CorsairCommand :=
  match n with
  | O => []
  | S n' =>
      match next_command op max_len st with
      | None => []
      | Some (c, st') => c :: gen_take op max_len n' st'
      end
  end.

(** Draining the generator, as [for command in commands] does.  [fuel]
    bounds the number of resumptions; [None] means the generator was not
    exhausted within the bound. *)
Fixpoint gen_run (op max_len : Z) (fuel : nat) (st : gen_state)
  : option (list CorsairCommand) :=
  match fuel with
  | O => None
  | S fuel' =>
      match next_command op max_len st with
      | None => Some []
      | Some (c, st') => cons c <$> gen_run op max_len fuel' st'
      end
  end.

(** All commands of [make_commands(data, opcode, max_len)].  One
    resumption per payload byte plus the final one is enough whenever the
    generator terminates ([gen_run_enough]); a generator that never
    terminates gives [None] for every bound ([gen_run_diverges]). *)
Definition make_commands (data : bytes) (op max_len : Z)
  : option (list CorsairCommand) :=
  gen_run op max_len (S (length data)) (mkGen data 0).

(** *** The receiving side, used to state the framing properties *)

(** A packet's data truncated to its [datalen]. *)
Definition payload_of (c : CorsairCommand) : bytes :=
  slice_to (data c) (datalen c).

(** Reassembly in [part_num] order: parts [0], [1], ... are looked up by
    their number, truncated and concatenated. *)
Definition reassemble (l : list CorsairCommand) : bytes :=
  flat_map
    (fun k => match find (fun c => part_num c =? Z.of_nat k) l with
              | Some c => payload_of c
              | None => []
              end)
    (seq 0 (length l)).

(** [ceil(a / b)] *)
Definition ceil_div (a b : Z) : Z := - ((- a) / b).

(** What [make_commands] promises about the packet at position [i] of
    [n], for a payload of [total] bytes framed with capacity
    [real_max_len] from part number [k] on. *)
Definition framed_at (op real_max_len k total : Z) (n i : nat)
    (c : CorsairCommand) : Prop :=
  opcode c = op /\ unknown1 c = 5 /\ unknown2 c = 64
  /\ part_num c = k + Z.of_nat i
  /\ len (data c) = real_max_len
  /\ datalen c = Z.min real_max_len (total - Z.of_nat i * real_max_len)
  /\ is_end c = bool_decide (S i = n).

(** The wire layout of a serialized command: eight header bytes, with
    the two 16-bit fields little-endian, then the data block. *)
Definition wire_layout (c : CorsairCommand) (bs : bytes) : Prop :=
  exists b0 b1 b2 b3 b4 b5 b6 b7,
    bs = [b0; b1; b2; b3; b4; b5; b6; b7] ++ data c
    /\ int_of_byte b0 = opcode c
    /\ int_of_byte b1 = unknown1 c
    /\ int_of_byte b2 = unknown2 c
    /\ int_of_byte b3 = (if is_end c then 1 else 0)
    /\ int_of_byte b4 + 256 * int_of_byte b5 = part_num c
    /\ int_of_byte b6 + 256 * int_of_byte b7 = datalen c.

(** What the fields of a [CorsairCommand] are declared to hold (the
    annotations of lines 35 to 41): [opcode] one byte, [unknown1] the
    constant [0x05], [unknown2] the constant [0x40], [part_num] and
    [datalen] in [0x0000..0xffff]. *)
Definition well_typed (c : CorsairCommand) : Prop :=
  0 <= opcode c < 256 /\ unknown1 c = 5 /\ unknown2 c = 64
  /\ 0 <= part_num c <= 65535 /\ 0 <= datalen c <= 65535.

(** [CorsairCommand.header_size] and [CorsairCommand.size] *)
Definition header_size (c : CorsairCommand) : Z := HEADER_SIZE.
Definition command_size (c : CorsairCommand) : Z := header_size c + datalen c.

(** The HID device of [UpdateDeviceThread]: [hid n report] tells whether
    the [n]-th [device.write(report)] of a call returns ([true]) or raises
    ([false]).  The value a successful write returns is ignored by the
    code. *)
Abbreviation HidDevice := (nat -> bytes -> bool).

(** The [for command in commands: self.device.write(command.to_bytes())]
    loop of [write_command], resuming the generator once per iteration.
    The result is the list of reports the device accepted and whether the
    loop ran to the end; [false] is an exception, raised by [to_bytes] or
    by [device.write], which the enclosing [try] logs.  [None] means the
    generator was not exhausted within [fuel] resumptions. *)
Fixpoint write_loop (hid : HidDevice) (op max_len : Z) (fuel n : nat)
    (st : gen_state) : option (list bytes * bool) :=
  match fuel with
  | O => None
  | S fuel' =>
      match next_command op max_len st with
      | None => Some ([], true)
      | Some (c, st') =>
          match to_bytes c with
          | None => Some ([], false)
          | Some report =>
              if hid n report
              then '(ws, ok) ← write_loop hid op max_len fuel' (S n) st';
                   Some (report :: ws, ok)
              else Some ([], false)
          end
      end
  end.

(** [UpdateDeviceThread.write_command]: [make_commands] is called with
    its default opcode [0x02] and packet size 1024. *)
Definition write_command (hid : HidDevice) (data : bytes)
  : option (list bytes * bool) :=
  write_loop hid 2 1024 (S (length data)) 0 (mkGen data 0).

(** ** [led_controller_openrgb.py] *)

(** [openrgb.utils.RGBColor] *)
Record RGBColor := mkRGB { red : Z; green : Z; blue : Z }.

Definition black : RGBColor := mkRGB 0 0 0.

(** A channel triple that fits the 8-bit range. *)
Definition channel_ok (v : Z) : Prop := 0 <= v <= 255.
Definition rgb_ok (c : RGBColor) : Prop :=
  channel_ok (red c) /\ channel_ok (green c) /\ channel_ok (blue c).

(** *** Floats *)

(** Rounding of an exact result to the nearest binary64 value. *)
Class FloatModel := { fl : Q -> Q }.

Definition float_eps : Q := 1 # (2 ^ 53).
Definition float_eta : Q := 1 # (2 ^ 1075).

Class FloatLaws `{FloatModel} : Prop := {
  fl_proper : forall q q', (q == q')%Q -> (fl q == fl q')%Q;
  fl_error : forall q,
    (Qabs (fl q - q) <= float_eps * Qabs q + float_eta)%Q;
  fl_exact : forall q m,
    (q == m # 4)%Q -> Z.abs m < 2 ^ 53 -> (fl q == q)%Q
}.

Section FloatOps.
Context `{FloatModel}.
Definition fadd (a b : Q) : Q := fl (a + b).
Definition fsub (a b : Q) : Q := fl (a - b).
Definition fmul (a b : Q) : Q := fl (a * b).
Definition fdiv (a b : Q) : Q := fl (a / b).
End FloatOps.

(** [int(x)] on a float: truncation toward zero. *)
Definition py_int (q : Q) : Z := Z.quot (Qnum q) (Z.pos (Qden q)).

(** [round(x)] on a float, the rounding the specification names: to the
    nearest integer, ties to the even one. *)
Definition py_round (q : Q) : Z :=
  let f := Qfloor q in
  match (q - inject_Z f ?= 1 # 2)%Q with
  | Lt => f
  | Gt => f + 1
  | Eq => if Z.even f then f else f + 1
  end.

(** *** Libraries the controller calls

    [math.cos] and [math.sin] are only ever applied to the 24 angles
    [2 * math.pi * k / 24]; the angle is represented by [k]. *)
Class Libm := {
  math_cos : Z -> Q;
  math_sin : Z -> Q
}.

(** A [QColor] in HSV form, as read by [hue()], [saturation()], [value()]. *)
Record HSV := mkHSV { hue : Z; saturation : Z; value : Z }.

(** The part of [PyQt6.QtGui.QColor] the controller uses: [toHsv] on the
    colour of a pixel, and [setHsv] followed by [red()], [green()],
    [blue()]. *)
Class QColorApi := {
  toHsv : RGBColor -> HSV;
  setHsv_rgb : Z -> Z -> Z -> RGBColor
}.

(** The captured frame: [image.pixel(x, y)] and its size. *)
Record QImage := mkImage {
  img_width : Z;
  img_height : Z;
  pixel : Z -> Z -> RGBColor
}.

(** *** [LEDController.analyze_and_set_colors] *)

Section Sampling.
Context `{FloatModel} `{Libm} `{QColorApi}.

(** Lines 59 to 61: the sample point of LED [i]. *)
Definition sample_point (width height : Z) (i : Z) : Z * Z :=
  let radius := Z.min width height / 2 in
  let angle := 23 - i in
  let x := width - py_int (fadd (fdiv (inject_Z width) 2)
                                 (fmul (inject_Z radius) (math_cos angle))) in
  let y := py_int (fadd (fdiv (inject_Z height) 2)
                        (fmul (inject_Z radius) (math_sin angle))) in
  (x, y).

(** The saturation handed to [setHsv]. *)
Definition boosted_saturation (saturation_factor : Q) (s : Z) : Z :=
  Z.min 255 (py_int (fmul (inject_Z s) saturation_factor)).

(** Lines 63 to 69: saturation boost of one colour. *)
Definition boost (saturation_factor : Q) (c : RGBColor) : RGBColor :=
  let color := toHsv c in
  setHsv_rgb (hue color)
             (boosted_saturation saturation_factor (saturation color))
             (value color).

(** [rgb_color] of iteration [i]. *)
Definition sample_led (image : QImage) (width height : Z)
    (saturation_factor : Q) (i : nat) : RGBColor :=
  let '(x, y) := sample_point width height (Z.of_nat i) in
  boost saturation_factor (pixel image x y).
End Sampling.

(** Lines 72 to 79, one channel and one colour. *)
Definition smooth_channel `{FloatModel} (smoothing_factor : Q)
    (last sampled : Z) : Z :=
  py_int (fadd (fmul (inject_Z last) (fsub 1 smoothing_factor))
               (fmul (inject_Z sampled) smoothing_factor)).

Definition smooth `{FloatModel} (smoothing_factor : Q)
    (last rgb_color : RGBColor) : RGBColor :=
  mkRGB (smooth_channel smoothing_factor (red last) (red rgb_color))
        (smooth_channel smoothing_factor (green last) (green rgb_color))
        (smooth_channel smoothing_factor (blue last) (blue rgb_color)).

(** The [for i in range(24)] loop over the persisted list.  Reading
    [last_rgb_colors[i]] outside the list raises [IndexError]; the
    enclosing [try] then abandons the rest of the tick, leaving the
    entries already written.  The boolean tells whether the loop
    completed. *)
Fixpoint smooth_loop `{FloatModel} (sampled : nat -> RGBColor)
    (smoothing_factor : Q)
    (idx : list nat) (colors : list RGBColor) : list RGBColor * bool :=
  match idx with
  | [] => (colors, true)
  | i :: rest =>
      match colors !! i with
      | None => (colors, false)
      | Some last =>
          smooth_loop sampled smoothing_factor rest
            (<[i := smooth smoothing_factor last (sampled i)]> colors)
      end
  end.

(** *** The OpenRGB backend

    The session object: devices, each with a name and named zones holding
    an array of LEDs.  Every call that reaches the backend, every sleep
    and every report is recorded as an [event], in the order it happens,
    in the manner of a stub backend that counts calls. *)

Record Zone := mkZone { zone_name : string; zone_leds : nat }.
Record Device := mkDevice { device_name : string; zones : list Zone }.
Record OpenRGBClient := mkClient { ee_devices : list Device }.

Inductive event :=
| EvConnect                                   (* [OpenRGBClient()] *)
| EvSleep (ms : Z)                            (* [time.sleep] *)
| EvLogWarning                                (* [logging.warning] *)
| EvLogError                                  (* [logging.error] *)
| EvWarningBox                                (* [QMessageBox.warning] *)
| EvSetColor (device led : nat) (c : RGBColor) (* [leds[i].set_color] *)
| EvClear (device : nat)                      (* [device.clear()] *)
| EvUncaught.                                 (* an exception leaves the method *)

(** Calls that write to the LED hardware. *)
Definition is_write (e : event) : bool :=
  match e with
  | EvSetColor _ _ _ | EvClear _ => true
  | _ => false
  end.

Definition is_connect (e : event) : bool :=
  match e with EvConnect => true | _ => false end.

(** [backend n] is what the [n]-th call of [OpenRGBClient()] does: a
    session, or [None] when it raises. *)
Abbreviation Backend := (nat -> option OpenRGBClient).

(** [LEDController.connect_to_openrgb]: the [for attempt in range(2)]
    loop. *)
Fixpoint connect_attempts (backend : Backend) (attempts : list nat)
  : option OpenRGBClient * list event :=
  match attempts with
  | [] => (None, [])
  | attempt :: rest =>
      match backend attempt with
      | Some c => (Some c, [EvConnect])
      | None =>
          let '(r, tr) := connect_attempts backend rest in
          (r, EvConnect
                :: (if Nat.eqb attempt 0 then [EvLogWarning] else [])
                ++ EvSleep 5000 :: tr)
      end
  end.

Definition connect_to_openrgb (backend : Backend)
  : option OpenRGBClient * list event :=
  connect_attempts backend (seq 0 2).

(** The controller's attributes.  [last_rgb_colors] is shared with the
    worker (the same list object), so one field serves both.  When the
    constructor returns early the list is never created; it is [[]]
    here, and nothing reads it while [enabled] is false.
    [start_timer_scheduled] records the pending
    [QTimer.singleShot(0, self.start_timer)] of line 31 and
    [atexit_registered] the [atexit.register] of line 33.  The attribute
    [update_led_timer] does not exist ([None]) until [start_timer] has
    run; then it holds the timer, running ([Some true]) or stopped
    ([Some false]). *)
Record LEDController := mkController {
  enabled : bool;
  client : option OpenRGBClient;
  last_rgb_colors : list RGBColor;
  start_timer_scheduled : bool;
  atexit_registered : bool;
  update_led_timer : option bool
}.

(** [LEDController.__init__]: the constructor only schedules
    [start_timer]; it creates no timer. *)
Definition init (backend : Backend) : LEDController * list event :=
  let '(cl, tr) := connect_to_openrgb backend in
  match cl with
  | None =>
      (mkController false None [] false false None, tr ++ [EvWarningBox])
  | Some c =>
      (mkController true (Some c) (replicate 24 black) true true None, tr)
  end.

(** [LEDController.start_timer] *)
Definition start_timer (st : LEDController) : LEDController :=
  mkController (enabled st) (client st) (last_rgb_colors st)
               (start_timer_scheduled st) (atexit_registered st) (Some true).

(** [for i, rgb_color in enumerate(self.last_rgb_colors):
       pump_zone.leds[i].set_color(rgb_color, fast=True)];
    [false] when [leds[i]] raises [IndexError]. *)
Fixpoint set_leds (d nleds i : nat) (colors : list RGBColor)
  : list event * bool :=
  match colors with
  | [] => ([], true)
  | c :: rest =>
      if Nat.ltb i nleds
      then let '(tr, ok) := set_leds d nleds (S i) rest in
           (EvSetColor d i c :: tr, ok)
      else ([], false)
  end.

Definition is_commander (dev : Device) : bool :=
  String.eqb (device_name dev) "Corsair Commander Core".

(** The [for device in self.client.ee_devices] loop of [set_colors];
    [false] when an exception ([StopIteration] from [next], or
    [IndexError]) ends it. *)
Fixpoint set_devices (d : nat) (devs : list Device)
    (colors : list RGBColor) : list event * bool :=
  match devs with
  | [] => ([], true)
  | dev :: rest =>
      if is_commander dev then
        match find (fun z => String.eqb (zone_name z) "Pump") (zones dev) with
        | None => ([], false)
        | Some pump_zone =>
            let '(tr, ok) := set_leds d (zone_leds pump_zone) 0 colors in
            if ok
            then let '(tr', ok') := set_devices (S d) rest colors in
                 (tr ++ tr', ok')
            else (tr, false)
        end
      else set_devices (S d) rest colors
  end.

(** [LEDWorker.set_colors] *)
Definition set_colors (st : LEDController) : list event :=
  if negb (enabled st) then []
  else match client st with
       | None => [EvLogError]
       | Some c =>
           let '(tr, ok) :=
             set_devices 0 (ee_devices c) (last_rgb_colors st) in
           if ok then tr else tr ++ [EvLogError]
       end.

Definition with_colors (st : LEDController) (colors : list RGBColor)
  : LEDController :=
  mkController (enabled st) (client st) colors
               (start_timer_scheduled st) (atexit_registered st)
               (update_led_timer st).

(** [LEDController.analyze_and_set_colors]; [image] is what
    [self.main.capture_container()] returned, and [self.started.emit()]
    runs the connected [set_colors]. *)
Definition analyze_and_set_colors `{FloatModel} `{Libm} `{QColorApi}
    (st : LEDController) (image : QImage) (width height : Z)
    (smoothing_factor saturation_factor : Q)
  : LEDController * list event :=
  if negb (enabled st) then (st, [])
  else
    let '(colors, ok) :=
      smooth_loop (sample_led image width height saturation_factor)
                  smoothing_factor (seq 0 24) (last_rgb_colors st) in
    let st' := with_colors st colors in
    if ok then (st', set_colors st') else (st', [EvLogError]).

(** The timer calls the method without arguments. *)
Definition DEFAULT_WIDTH : Z := 479.
Definition DEFAULT_HEIGHT : Z := 479.
Definition DEFAULT_SMOOTHING : Q := 1 # 4.
Definition DEFAULT_SATURATION : Q := 5 # 4.

Definition timer_tick `{FloatModel} `{Libm} `{QColorApi}
    (st : LEDController) (image : QImage) : LEDController * list event :=
  analyze_and_set_colors st image DEFAULT_WIDTH DEFAULT_HEIGHT
                         DEFAULT_SMOOTHING DEFAULT_SATURATION.

(** [LEDWorker.turn_off_leds] *)
Fixpoint clear_devices (d : nat) (devs : list Device) : list event :=
  match devs with
  | [] => []
  | dev :: rest =>
      (if is_commander dev then [EvClear d] else [])
        ++ clear_devices (S d) rest
  end.

Definition turn_off_leds (c : OpenRGBClient) : list event :=
  EvSleep 100 :: clear_devices 0 (ee_devices c).

(** [LEDController.stop_led].  Line 86 clears [enabled] first.  Line 87
    then reads [self.update_led_timer]: while [start_timer] has not run
    the attribute is missing, the read raises [AttributeError], and the
    method is left with no timer stopped and nothing turned off.
    Otherwise the timer is stopped and line 88 runs [turn_off_leds] of the
    worker, which exists whenever a session does. *)
Definition stop_led (st : LEDController) : LEDController * list event :=
  let disabled timer :=
    mkController false (client st) (last_rgb_colors st)
                 (start_timer_scheduled st) (atexit_registered st) timer in
  match update_led_timer st with
  | None => (disabled None, [EvUncaught])
  | Some _ =>
      match client st with
      | Some c => (disabled (Some false), turn_off_leds c)
      | None => (disabled (Some false), [EvUncaught])
      end
  end.

(** What can happen to a constructed controller during the run: a call
    of [analyze_and_set_colors] with the frame captured for it (a timer
    tick), a direct [set_colors] push, the exit hook (which runs
    [stop_led] only if it was registered), and the event loop firing the
    single shot of line 31 (which runs [start_timer], once, if it was
    scheduled).  The actions may come in any order: an exit can precede
    the single shot, as when the program ends before its event loop has
    started. *)
Inductive action :=
| ActTick (image : QImage)
| ActPush
| ActExit
| ActStartTimer.

Definition step `{FloatModel} `{Libm} `{QColorApi}
    (st : LEDController) (a : action)
  : LEDController * list event :=
  match a with
  | ActTick image => timer_tick st image
  | ActPush => (st, set_colors st)
  | ActExit => if atexit_registered st then stop_led st else (st, [])
  | ActStartTimer =>
      if start_timer_scheduled st
      then (start_timer
              (mkController (enabled st) (client st) (last_rgb_colors st)
                            false (atexit_registered st)
                            (update_led_timer st)), [])
      else (st, [])
  end.

Fixpoint run `{FloatModel} `{Libm} `{QColorApi}
    (st : LEDController) (acts : list action)
  : LEDController * list event :=
  match acts with
  | [] => (st, [])
  | a :: rest =>
      let '(st1, tr1) := step st a in
      let '(st2, tr2) := run st1 rest in
      (st2, tr1 ++ tr2)
  end.

(** Successive calls of [analyze_and_set_colors], one per captured
    frame. *)
Fixpoint ticks `{FloatModel} `{Libm} `{QColorApi}
    (st : LEDController) (frames : list QImage) (width height : Z)
    (smoothing_factor saturation_factor : Q) : LEDController :=
  match frames with
  | [] => st
  | image :: rest =>
      ticks (fst (analyze_and_set_colors st image width height
                    smoothing_factor saturation_factor))
            rest width height smoothing_factor saturation_factor
  end.

(** Total time slept in a trace, in milliseconds. *)
Definition sleep_total (tr : list event) : Z :=
  foldr (fun e acc => match e with EvSleep ms => ms + acc | _ => acc end) 0 tr.

(** The writes of a push that meets no obstacle: for each Commander Core
    device, in the order of [ee_devices] and counted from [d], one
    [set_color] per persisted colour, in index order. *)
Definition push_trace (d : nat) (devs : list Device)
    (colors : list RGBColor) : list event :=
  mjoin (imap (fun j dev =>
                 if is_commander dev
                 then imap (fun i c => EvSetColor (d + j) i c) colors
                 else []) devs).

(** The clears of [turn_off_leds]: one per Commander Core device, in
    the order of [ee_devices]. *)
Definition clear_trace (devs : list Device) : list event :=
  mjoin (imap (fun j dev => if is_commander dev then [EvClear j] else [])
              devs).

Definition pump_zone_of (dev : Device) : option Zone :=
  find (fun z => String.eqb (zone_name z) "Pump") (zones dev).

Definition is_warning_box (e : event) : bool :=
  match e with EvWarningBox => true | _ => false end.

Definition is_exit (a : action) : bool :=
  match a with ActExit => true | _ => false end.

(** The channels of [col] are at most 3 below those of [c], or at 0. *)
Definition trails (col c : RGBColor) : Prop :=
  0 <= red col <= Z.max 0 (red c - 3)
  /\ 0 <= green col <= Z.max 0 (green c - 3)
  /\ 0 <= blue col <= Z.max 0 (blue c - 3).

(** A frame of one colour: [pixel] answers the same colour at every
    position inside the frame.  Nothing is asked of a lookup outside
    it. *)
Definition uniform (image : QImage) : Prop :=
  exists c, forall x y,
    0 <= x < img_width image -> 0 <= y < img_height image ->
    pixel image x y = c.

(** ** [SaveStateHandler]

    The handler's own attributes and timers.  What it reads from the
    main window is passed in: the pixmap position and view transform seen
    by [check_state] ([None] when the getter returns [None]), and the
    state dictionary [save_image_state] builds from the widgets.  A save
    is recorded as the dictionary handed to [yaml.dump]. *)

Section SaveState.
Context {Pos Transform Snapshot : Type}.
Context `{EqDecision Pos} `{EqDecision Transform}.

Record SaveStateHandler := mkSaveState {
  old_pos : option Pos;
  is_first_load : bool;
  check_state_timer_active : bool;
  save_image_state_timer_active : bool;
  save_image_state_flag : bool;
  old_transform : option Transform
}.

(** [SaveStateHandler.__init__] *)
Definition save_state_init : SaveStateHandler :=
  mkSaveState None true false false false None.

(** [load_image_state], as far as the handler is concerned: the early
    [return] when the state was loaded before, otherwise the two final
    statements, which run whatever the file held.  The widget updates
    made while loading reach [restart_save_image_state_timer] with
    [is_first_load] still set, where they are skipped. *)
Definition load_image_state (st : SaveStateHandler) : SaveStateHandler :=
  if negb (is_first_load st) then st
  else mkSaveState (old_pos st) false true
                   (save_image_state_timer_active st)
                   (save_image_state_flag st) (old_transform st).

Definition restart_save_image_state_timer (st : SaveStateHandler)
  : SaveStateHandler :=
  if is_first_load st then st
  else mkSaveState (old_pos st) (is_first_load st)
                   (check_state_timer_active st) true true
                   (old_transform st).

Definition save_image_state (st : SaveStateHandler) (state : Snapshot)
  : list Snapshot :=
  if is_first_load st then [] else [state].

Definition handle_save_image_state_timeout (st : SaveStateHandler)
    (state : Snapshot) : SaveStateHandler * list Snapshot :=
  if save_image_state_flag st
  then (mkSaveState (old_pos st) (is_first_load st)
                    (check_state_timer_active st)
                    (save_image_state_timer_active st) false
                    (old_transform st),
        save_image_state st state)
  else (st, []).

Definition check_state (st : SaveStateHandler)
    (newPos : option Pos) (newTransform : option Transform)
  : SaveStateHandler :=
  match newPos, newTransform with
  | Some _, Some _ =>
      if bool_decide (newPos <> old_pos st)
         || bool_decide (newTransform <> old_transform st)
      then
        let st1 := if negb (is_first_load st)
                   then restart_save_image_state_timer st else st in
        mkSaveState newPos (is_first_load st1)
                    (check_state_timer_active st1)
                    (save_image_state_timer_active st1)
                    (save_image_state_flag st1) newTransform
      else st
  | _, _ => st
  end.

(** What reaches the handler: [load_image_state] from the constructor of
    the main window, the two timers (a timer fires only while it is
    active), [restart_save_image_state_timer] from [scale_image] and
    [open_image], and [save_image_state] from [update_startup]. *)
Inductive save_action :=
| SaLoad
| SaCheckTimeout (newPos : option Pos) (newTransform : option Transform)
| SaSaveTimeout (state : Snapshot)
| SaRestart
| SaSaveNow (state : Snapshot).

Definition save_step (st : SaveStateHandler) (a : save_action)
  : SaveStateHandler * list Snapshot :=
  match a with
  | SaLoad => (load_image_state st, [])
  | SaCheckTimeout p t =>
      if check_state_timer_active st then (check_state st p t, [])
      else (st, [])
  | SaSaveTimeout state =>
      if save_image_state_timer_active st
      then handle_save_image_state_timeout st state
      else (st, [])
  | SaRestart => (restart_save_image_state_timer st, [])
  | SaSaveNow state => (st, save_image_state st state)
  end.

Fixpoint save_run (st : SaveStateHandler) (acts : list save_action)
  : SaveStateHandler * list Snapshot :=
  match acts with
  | [] => (st, [])
  | a :: rest =>
      let '(st1, w1) := save_step st a in
      let '(st2, w2) := save_run st1 rest in
      (st2, w1 ++ w2)
  end.

Definition is_load (a : save_action) : bool :=
  match a with SaLoad => true | _ => false end.

(** Actions that can raise the save flag. *)
Definition is_trigger (a : save_action) : bool :=
  match a with SaCheckTimeout _ _ | SaRestart => true | _ => false end.

Definition is_save_now (a : save_action) : bool :=
  match a with SaSaveNow _ => true | _ => false end.
End SaveState.

Arguments SaveStateHandler : clear implicits.
Arguments save_action : clear implicits.

(** ** Reference instances of the library interfaces

    Concrete libraries on which the definitions above can be run. *)

(** Binary64 round-to-nearest, ties to even, on the rationals below the
    overflow threshold.  [ilog2 q] is the exponent of a positive [q],
    [floor(log2 q)]; a value is rounded to a multiple of
    [2^(ilog2 - 52)], or of [2^-1074] in the subnormal range. *)
Definition ilog2 (q : Q) : Z :=
  let e0 := Z.log2 (Qnum q) - Z.log2 (Z.pos (Qden q)) in
  if Qle_bool (2 ^ e0) q then e0 else e0 - 1.

Definition binary64_round (q : Q) : Q :=
  let r := Qred q in
  if Qnum r =? 0 then 0%Q
  else
    let k := Z.max (ilog2 (Qabs r) - 52) (-1074) in
    (inject_Z (py_round (r / 2 ^ k)) * 2 ^ k)%Q.

Definition binary64 : FloatModel := {| fl := binary64_round |}.

(** [math.cos(2 * math.pi * k / 24)] for [k = 0 .. 23], as computed in
    binary64 by a common libm. *)
Definition cos_table : list Q := [
  (1 # 1);
  (8700286382685973 # 9007199254740992);
  (7800463371553963 # 9007199254740992);
  (6369051672525773 # 9007199254740992);
  (4503599627370497 # 9007199254740992);
  (291404338770025 # 1125899906842624);
  (4967757600021511 # 81129638414606681695789005144064);
  ((-2331234710160199) # 9007199254740992);
  ((-2251799813685247) # 4503599627370496);
  ((-1592262918131443) # 2251799813685248);
  ((-7800463371553963) # 9007199254740992);
  ((-2175071595671493) # 2251799813685248);
  ((-1) # 1);
  ((-8700286382685973) # 9007199254740992);
  ((-1950115842888491) # 2251799813685248);
  ((-398065729532861) # 562949953421312);
  ((-1125899906842625) # 2251799813685248);
  ((-2331234710160199) # 9007199254740992);
  ((-3725818200016133) # 20282409603651670423947251286016);
  (582808677540049 # 2251799813685248);
  (4503599627370497 # 9007199254740992);
  (6369051672525771 # 9007199254740992);
  (975057921444245 # 1125899906842624);
  (8700286382685971 # 9007199254740992)
]%Q.

(** [math.sin(2 * math.pi * k / 24)] for [k = 0 .. 23], as computed in
    binary64 by a common libm. *)
Definition sin_table : list Q := [
  (0 # 1);
  (291404338770025 # 1125899906842624);
  (9007199254740991 # 18014398509481984);
  (1592262918131443 # 2251799813685248);
  (3900231685776981 # 4503599627370496);
  (8700286382685973 # 9007199254740992);
  (1 # 1);
  (8700286382685973 # 9007199254740992);
  (7800463371553963 # 9007199254740992);
  (6369051672525773 # 9007199254740992);
  (9007199254740991 # 18014398509481984);
  (4662469420320405 # 18014398509481984);
  (4967757600021511 # 40564819207303340847894502572032);
  ((-4662469420320401) # 18014398509481984);
  ((-9007199254740987) # 18014398509481984);
  ((-6369051672525769) # 9007199254740992);
  ((-975057921444245) # 1125899906842624);
  ((-8700286382685973) # 9007199254740992);
  ((-1) # 1);
  ((-4350143191342987) # 4503599627370496);
  ((-3900231685776981) # 4503599627370496);
  ((-3184525836262887) # 4503599627370496);
  ((-1125899906842625) # 2251799813685248);
  ((-4662469420320415) # 18014398509481984)
]%Q.

Definition table_libm : Libm :=
  {| math_cos := fun k => nth (Z.to_nat k) cos_table 0%Q;
     math_sin := fun k => nth (Z.to_nat k) sin_table 0%Q |}.

(** The integer form of the usual RGB/HSV conversion, with hue in
    degrees ([-1] for greys) and saturation and value in [0..255]. *)
Definition int_toHsv (c : RGBColor) : HSV :=
  let r := red c in
  let g := green c in
  let b := blue c in
  let mx := Z.max r (Z.max g b) in
  let mn := Z.min r (Z.min g b) in
  let delta := mx - mn in
  if delta =? 0 then mkHSV (-1) 0 mx
  else
    let s := (delta * 255 + mx / 2) / mx in
    let h := if r =? mx then 60 * (g - b) / delta
             else if g =? mx then 120 + 60 * (b - r) / delta
             else 240 + 60 * (r - g) / delta in
    mkHSV (h mod 360) s mx.

(** [setHsv] rejects components out of range and leaves an invalid colour,
    whose channels read as zero. *)
Definition int_setHsv_rgb (h s v : Z) : RGBColor :=
  if (h <? -1) || (s <? 0) || (255 <? s) || (v <? 0) || (255 <? v)
  then black
  else if (s =? 0) || (h =? -1) then mkRGB v v v
  else
    let h' := h mod 360 in
    let f := h' mod 60 in
    let p := v * (255 - s) / 255 in
    let q := v * (255 * 60 - s * f) / (255 * 60) in
    let t := v * (255 * 60 - s * (60 - f)) / (255 * 60) in
    match h' / 60 with
    | 0 => mkRGB v t p
    | 1 => mkRGB q v p
    | 2 => mkRGB p v t
    | 3 => mkRGB p q v
    | 4 => mkRGB t p v
    | _ => mkRGB v p q
    end.

Definition int_qcolor : QColorApi :=
  {| toHsv := int_toHsv; setHsv_rgb := int_setHsv_rgb |}.

(** What the controller relies on from the libraries. *)
Class LibmLaws `{Libm} : Prop := {
  math_cos_range : forall k, (-1 <= math_cos k <= 1)%Q;
  math_sin_range : forall k, (-1 <= math_sin k <= 1)%Q
}.

Class QColorLaws `{QColorApi} : Prop := {
  toHsv_range : forall c, rgb_ok c ->
    -1 <= hue (toHsv c) < 360
    /\ 0 <= saturation (toHsv c) <= 255
    /\ 0 <= value (toHsv c) <= 255;
  setHsv_range : forall h s v,
    -1 <= h -> 0 <= s <= 255 -> 0 <= v <= 255 -> rgb_ok (setHsv_rgb h s v)
}.

(** A solid white 480x480 frame. *)
Definition white : RGBColor := mkRGB 255 255 255.
Definition white_frame : QImage := mkImage 480 480 (fun _ _ => white).

(** A white 480 by 480 frame whose [pixel] answers another colour for a
    position outside the frame. *)
Definition bordered_frame : QImage :=
  mkImage 480 480
    (fun x y => if (0 <=? x) && (x <? 480) && (0 <=? y) && (y <? 480)
                then white else mkRGB 0 48 57).

(** A backend on which every connection attempt fails, and one with a
    Commander Core whose pump zone has 24 LEDs. *)
Definition dead_backend : Backend := fun _ => None.
Definition pump_client : OpenRGBClient :=
  mkClient [mkDevice "Corsair Commander Core" [mkZone "Pump" 24]].
Definition live_backend : Backend := fun _ => Some pump_client.

(** * Properties *)

(** ** Slices and ceilings *)

Lemma len_nonneg {A} (l : list A) : 0 <= len l.
Proof. unfold len. lia. Qed.

Lemma len_app {A} (l1 l2 : list A) : len (l1 ++ l2) = len l1 + len l2.
Proof. unfold len. rewrite length_app. lia. Qed.

Lemma len_zeros n : 0 <= n -> len (zeros n) = n.
Proof. intros Hn. unfold len, zeros. rewrite length_replicate. lia. Qed.

Lemma slice_to_nonneg {A} (l : list A) k :
  0 <= k -> slice_to l k = take (Z.to_nat k) l.
Proof. intros Hk. unfold slice_to. destruct (Z.ltb_spec k 0); [lia | done]. Qed.

Lemma slice_from_nonneg {A} (l : list A) k :
  0 <= k -> slice_from l k = drop (Z.to_nat k) l.
Proof. intros Hk. unfold slice_from. destruct (Z.ltb_spec k 0); [lia | done]. Qed.

Lemma ceil_div_zero b : ceil_div 0 b = 0.
Proof. unfold ceil_div. simpl. rewrite Zdiv_0_l. reflexivity. Qed.

Lemma ceil_div_small a b : 0 < a <= b -> ceil_div a b = 1.
Proof.
  intros Hab. unfold ceil_div.
  assert (- a / b = -1); [| lia].
  symmetry. apply (Z.div_unique_pos (- a) b (-1) (b - a)); lia.
Qed.

Lemma ceil_div_step a b : 0 < b -> ceil_div a b = 1 + ceil_div (a - b) b.
Proof.
  intros Hb. unfold ceil_div.
  replace (- (a - b)) with (- a + 1 * b) by lia.
  rewrite Z.div_add by lia. lia.
Qed.

Lemma ceil_div_bounds a b :
  0 < b -> b * (ceil_div a b - 1) < a <= b * ceil_div a b.
Proof.
  intros Hb. unfold ceil_div.
  pose proof (Z.div_mod (- a) b ltac:(lia)).
  pose proof (Z.mod_pos_bound (- a) b Hb). lia.
Qed.

(** ** The generator *)

Section Framing.
Variables (op max_len : Z).
Let real_max_len := max_len - HEADER_SIZE.

(** One resumption when the payload capacity is positive. *)
Lemma next_command_pos b bs k :
  0 < real_max_len ->
  let data := b :: bs in
  next_command op max_len (mkGen data k) =
  Some (mkCorsairCommand op 5 64
          (bool_decide (len data <= real_max_len)) k
          (Z.min real_max_len (len data))
          (take (Z.to_nat real_max_len) data
             ++ zeros (real_max_len - len data)),
        mkGen (drop (Z.to_nat real_max_len) data) (k + 1)).
Proof.
  intros Hpos data. unfold next_command. cbn [g_data g_part_num].
  fold real_max_len. fold data.
  rewrite slice_from_nonneg, slice_to_nonneg by lia.
  assert (Hlen : length (drop (Z.to_nat real_max_len) data)
                 = (length data - Z.to_nat real_max_len)%nat)
    by apply length_drop.
  assert (Hend : match drop (Z.to_nat real_max_len) data with
                 | [] => true | _ :: _ => false end
                 = bool_decide (len data <= real_max_len)).
  { case_bool_decide as Hle.
    - rewrite drop_ge; [done | unfold len in Hle; lia].
    - destruct (drop _ data) eqn:E; [| done].
      change (length (@nil byte)) with 0%nat in Hlen.
      unfold len in Hle. lia. }
  assert (Hpad : (if len data <? real_max_len
                  then data ++ zeros (real_max_len - len data)
                  else take (Z.to_nat real_max_len) data)
                 = take (Z.to_nat real_max_len) data
                     ++ zeros (real_max_len - len data)).
  { destruct (Z.ltb_spec (len data) real_max_len) as [Hlt | Hge].
    - rewrite take_ge; [done | unfold len in Hlt; lia].
    - unfold zeros.
      replace (Z.to_nat (real_max_len - len data)) with 0%nat by lia.
      simpl. by rewrite app_nil_r. }
  rewrite Hend, Hpad. reflexivity.
Qed.

Hypothesis Hpos : 0 < real_max_len.

Lemma payload_of_first b bs k c st :
  next_command op max_len (mkGen (b :: bs) k) = Some (c, st) ->
  payload_of c = take (Z.to_nat real_max_len) (b :: bs).
Proof.
  rewrite next_command_pos by done. intros [= <- _].
  unfold payload_of. cbn [data datalen].
  set (d := b :: bs).
  assert (0 < len d) by (unfold len, d; simpl; lia).
  rewrite slice_to_nonneg by lia.
  destruct (Z.le_gt_cases real_max_len (len d)) as [Hle | Hgt].
  - rewrite Z.min_l by done.
    rewrite take_app_le by (rewrite length_take; unfold len in Hle; lia).
    apply take_idemp.
  - rewrite Z.min_r by lia. unfold len in *.
    rewrite (take_ge d) by lia.
    rewrite Nat2Z.id. apply take_app_length.
Qed.

(** Enough fuel drains the generator, and the result is the framing
    of the payload. *)
Lemma gen_run_spec fuel :
  forall data k, (length data < fuel)%nat ->
  exists l, gen_run op max_len fuel (mkGen data k) = Some l
    /\ flat_map payload_of l = data
    /\ len l = ceil_div (len data) real_max_len
    /\ forall i c, l !! i = Some c ->
         framed_at op real_max_len k (len data) (length l) i c.
Proof.
  induction fuel as [| fuel IH]; intros data k Hfuel; [lia |].
  destruct data as [| b bs].
  { exists []. simpl. by split_and!. }
  set (d := b :: bs) in *.
  assert (Hd : 0 < len d) by (unfold len, d; simpl; lia).
  pose proof (payload_of_first b bs k) as Hpay.
  cbn [gen_run]. fold d in Hpay |- *.
  destruct (next_command op max_len (mkGen d k)) as [[c st] |] eqn:Hnext;
    [| unfold d in Hnext; rewrite next_command_pos in Hnext; done].
  specialize (Hpay c st eq_refl).
  unfold d in Hnext. rewrite next_command_pos in Hnext by done.
  fold d in Hnext. injection Hnext as Hc Hst. subst st.
  clearbody d.
  set (rest := drop (Z.to_nat real_max_len) d).
  assert (Hrest : len rest = Z.max 0 (len d - real_max_len)).
  { unfold rest, len. rewrite length_drop. lia. }
  assert (Hsplit : take (Z.to_nat real_max_len) d ++ rest = d)
    by apply take_drop.
  clearbody rest.
  destruct (IH rest (k + 1)) as (l' & Hrun & Hcat & Hcount & Hall).
  { unfold len in Hrest, Hd. lia. }
  exists (c :: l'). rewrite Hrun. split_and!.
  - done.
  - simpl. by rewrite Hpay, Hcat.
  - unfold len in *. simpl length. rewrite Nat2Z.inj_succ, Hcount, Hrest.
    destruct (Z.le_gt_cases (Z.of_nat (length d)) real_max_len).
    + rewrite Z.max_l by lia. rewrite ceil_div_zero, ceil_div_small; lia.
    + rewrite Z.max_r by lia. rewrite (ceil_div_step (Z.of_nat (length d))); lia.
  - intros [| i] c' Hi.
    + injection Hi as <-. subst c. unfold framed_at.
      cbn [opcode unknown1 unknown2 part_num datalen data is_end].
      split_and!; try done; try lia.
      * rewrite len_app. unfold len at 1. rewrite length_take.
        destruct (Z.le_gt_cases (len d) real_max_len).
        -- rewrite len_zeros by lia. unfold len in *. lia.
        -- unfold zeros. replace (Z.to_nat (real_max_len - len d)) with 0%nat by lia.
           unfold len in *. simpl length at 2. lia.
      * simpl length. apply bool_decide_ext.
        split.
        -- intros Hle. f_equal.
           rewrite Hrest, Z.max_l, ceil_div_zero in Hcount by lia.
           unfold len in Hcount. lia.
        -- intros [= Hl'].
           destruct (Z.le_gt_cases (len d) real_max_len) as [| Hgt]; [done |].
           rewrite Hrest, Z.max_r in Hcount by lia.
           pose proof (ceil_div_bounds (len d - real_max_len) real_max_len Hpos).
           unfold len in Hcount at 1. rewrite <- Hl' in Hcount. lia.
    + destruct (Hall i c' Hi) as (? & ? & ? & Hpn & ? & Hdl & Hend).
      assert (Hne : rest <> []) by (intros E; rewrite E in Hrun;
        destruct fuel; simpl in Hrun; [done |]; injection Hrun as <-; done).
      assert (Hgt : real_max_len < len d).
      { destruct (Z.le_gt_cases (len d) real_max_len); [| lia].
        exfalso. apply Hne. apply length_zero_iff_nil.
        unfold len in *. lia. }
      unfold framed_at. split_and!; try done.
      * lia.
      * rewrite Hdl, Hrest. f_equal. lia.
      * rewrite Hend. simpl length. apply bool_decide_ext. lia.
Qed.
End Framing.

(** More fuel never changes a result. *)
Lemma gen_run_mono op max_len fuel :
  forall st l fuel', gen_run op max_len fuel st = Some l ->
  (fuel <= fuel')%nat -> gen_run op max_len fuel' st = Some l.
Proof.
  induction fuel as [| fuel IH]; intros st l fuel' Hrun Hle; [done |].
  destruct fuel' as [| fuel']; [lia |].
  simpl in *. destruct (next_command op max_len st) as [[c st'] |]; [| done].
  destruct (gen_run op max_len fuel st') as [l' |] eqn:E; [| done].
  rewrite (IH st' l' fuel') by (done || lia). done.
Qed.

(** A drained generator yielded exactly its result. *)
Lemma gen_run_take op max_len fuel :
  forall st l, gen_run op max_len fuel st = Some l ->
  forall n, (length l <= n)%nat -> gen_take op max_len n st = l.
Proof.
  induction fuel as [| fuel IH]; intros st l Hrun n Hn; [done |].
  simpl in Hrun.
  destruct (next_command op max_len st) as [[c st'] |] eqn:Hnext.
  - destruct (gen_run op max_len fuel st') as [l' |] eqn:E; [| done].
    injection Hrun as <-. destruct n as [| n]; [simpl in Hn; lia |].
    simpl. rewrite Hnext. f_equal. apply IH; [done | simpl in Hn; lia].
  - injection Hrun as <-. destruct n; simpl; by rewrite ?Hnext.
Qed.

(** With no room for payload ([max_len <= 8]) a non-empty payload is
    never consumed: every resumption yields and leaves data behind. *)
Lemma next_command_stuck op max_len b bs k :
  max_len <= 8 ->
  exists c st', next_command op max_len (mkGen (b :: bs) k) = Some (c, st')
                /\ g_data st' <> [].
Proof.
  intros Hle. eexists _, _. split; [reflexivity |].
  cbn [g_data]. unfold slice_from, HEADER_SIZE.
  set (d := b :: bs).
  assert (0 < len d) by (unfold len, d; simpl; lia).
  clearbody d. intros E. apply (f_equal length) in E. simpl in E.
  destruct (Z.ltb_spec (max_len - 8) 0);
    rewrite length_drop in E; unfold len in *; lia.
Qed.

Lemma gen_take_stuck op max_len n :
  max_len <= 8 -> forall st, g_data st <> [] ->
  length (gen_take op max_len n st) = n.
Proof.
  intros Hle. induction n as [| n IH]; intros [d k] Hne; [done |].
  cbn [g_data] in Hne. destruct d as [| b bs]; [done |].
  destruct (next_command_stuck op max_len b bs k Hle) as (c & st' & Hn & Hne').
  cbn [gen_take]. rewrite Hn. simpl. f_equal. by apply IH.
Qed.

Lemma gen_run_diverges op max_len fuel :
  max_len <= 8 -> forall st, g_data st <> [] ->
  gen_run op max_len fuel st = None.
Proof.
  intros Hle. induction fuel as [| fuel IH]; intros [d k] Hne; [done |].
  cbn [g_data] in Hne. destruct d as [| b bs]; [done |].
  destruct (next_command_stuck op max_len b bs k Hle) as (c & st' & Hn & Hne').
  cbn [gen_run]. rewrite Hn. by rewrite IH.
Qed.

(** The bound used by [make_commands] is enough. *)
Lemma gen_run_enough op max_len data :
  8 < max_len ->
  exists l, make_commands data op max_len = Some l
    /\ flat_map payload_of l = data
    /\ len l = ceil_div (len data) (max_len - 8)
    /\ forall i c, l !! i = Some c ->
         framed_at op (max_len - 8) 0 (len data) (length l) i c.
Proof.
  intros Hgt. unfold make_commands.
  apply (gen_run_spec op max_len); unfold HEADER_SIZE; lia.
Qed.

(** One resumption: the yielded [datalen] never exceeds the capacity,
    and equals it whenever data is left for a further packet. *)
Lemma next_command_datalen op max_len st c st' :
  next_command op max_len st = Some (c, st') ->
  datalen c <= max_len - 8
  /\ (g_data st' <> [] -> datalen c = max_len - 8).
Proof.
  destruct st as [d k]. unfold next_command. cbn [g_data g_part_num].
  destruct d as [| b bs]; [done |]. set (d := b :: bs). clearbody d.
  intros [= <- <-]. cbn [datalen g_data]. unfold HEADER_SIZE.
  split; [lia |]. intros Hne.
  pose proof (len_nonneg d).
  destruct (Z.le_gt_cases (max_len - 8) (len d)); [lia |].
  exfalso. apply Hne. rewrite slice_from_nonneg by lia.
  apply drop_ge. unfold len in *. lia.
Qed.

Lemma gen_take_datalen op max_len n :
  forall st,
  Forall (fun c => datalen c <= max_len - 8) (gen_take op max_len n st)
  /\ Forall (fun c => datalen c = max_len - 8)
            (removelast (gen_take op max_len n st)).
Proof.
  induction n as [| n IH]; intros st; [by split; constructor |].
  cbn [gen_take].
  destruct (next_command op max_len st) as [[c st'] |] eqn:Hnext;
    [| by split; constructor].
  destruct (next_command_datalen _ _ _ _ _ Hnext) as [Hle Heq].
  destruct (IH st') as [IH1 IH2]. split; [by constructor |].
  destruct (gen_take op max_len n st') as [| c' l'] eqn:Htake;
    [constructor |].
  change (removelast (c :: c' :: l')) with (c :: removelast (c' :: l')).
  constructor; [| done]. apply Heq. intros E.
  destruct n; [done |]. simpl in Htake.
  destruct st' as [d' k']. cbn [g_data] in E. subst d'. done.
Qed.

(** ** Reassembly by part number *)

Lemma find_part_lookup (l : list CorsairCommand) :
  forall o, (forall i c, l !! i = Some c -> part_num c = Z.of_nat (o + i)) ->
  forall k, find (fun c => part_num c =? Z.of_nat (o + k)) l = l !! k.
Proof.
  induction l as [| c l IH]; intros o Hnum k; [by destruct k |].
  pose proof (Hnum 0%nat c eq_refl) as Hc. simpl.
  destruct k as [| k].
  - rewrite Hc, Z.eqb_refl. done.
  - destruct (Z.eqb_spec (part_num c) (Z.of_nat (o + S k))); [lia |].
    simpl. replace (o + S k)%nat with (S o + k)%nat by lia.
    apply IH. intros i c' Hi. rewrite (Hnum (S i) c' Hi). f_equal. lia.
Qed.

Lemma flat_map_lookup_seq {A B} (f : A -> list B) (l : list A) :
  forall o pre, length pre = o ->
  flat_map (fun k => match (pre ++ l) !! k with
                     | Some c => f c
                     | None => []
                     end) (seq o (length l))
  = flat_map f l.
Proof.
  induction l as [| x l IH]; intros o pre Hpre; [done |].
  simpl. rewrite lookup_app_r, Hpre, Nat.sub_diag by lia. simpl. f_equal.
  specialize (IH (S o) (pre ++ [x])).
  rewrite <- app_assoc in IH. apply IH. rewrite length_app. simpl. lia.
Qed.

Lemma reassemble_in_order (l : list CorsairCommand) :
  (forall i c, l !! i = Some c -> part_num c = Z.of_nat i) ->
  reassemble l = flat_map payload_of l.
Proof.
  intros Hnum. unfold reassemble.
  rewrite <- (flat_map_lookup_seq payload_of l 0 [] eq_refl). simpl.
  apply flat_map_ext. intros k.
  pose proof (find_part_lookup l 0 Hnum k) as Hf. simpl in Hf. by rewrite Hf.
Qed.

(** ** Framing: the claims *)

(** C1.  For every packet size [S > 8] and every payload [P] (non-empty
    ones in particular), [make_commands(P, max_len=S)] terminates, and
    taking its packets in [part_num] order, truncating each packet's data
    to its [datalen] and concatenating gives back [P]. *)
Theorem make_commands_roundtrip (P : bytes) (op max_len : Z) :
  8 < max_len ->
  exists l, make_commands P op max_len = Some l /\ reassemble l = P.
Proof.
  intros HS. destruct (gen_run_enough op max_len P HS) as (l & Hrun & Hcat & _ & Hall).
  exists l. split; [done |]. rewrite reassemble_in_order; [done |].
  intros i c Hi. destruct (Hall i c Hi) as (_ & _ & _ & Hpn & _). lia.
Qed.

Lemma make_commands_roundtrip_witness :
  8 < 10 /\
  exists l, make_commands [x01; x02; x03; x04; x05] 2 10 = Some l
            /\ reassemble l = [x01; x02; x03; x04; x05].
Proof.
  split; [lia |]. apply (make_commands_roundtrip _ 2 10). lia.
Defined.

(** C2, as the code has it.  For every non-empty payload [P] and every
    packet size [S > 8], [make_commands(P, max_len=S)] produces exactly
    [ceil(len(P) / (S-8))] packets; the packet at position [i] has
    [part_num = i], and [is_end] is set on the last packet and on no
    other.  A 2000-byte payload with [S = 1024] gives two packets,
    [(part_num=0, datalen=1016, is_end=false)] and [(part_num=1,
    datalen=984, is_end=true)], the second padded with 32 zero bytes. *)
Theorem make_commands_count (P : bytes) (op max_len : Z) :
  8 < max_len -> P <> [] ->
  (exists l, make_commands P op max_len = Some l
     /\ len l = ceil_div (len P) (max_len - 8)
     /\ forall i c, l !! i = Some c ->
          part_num c = Z.of_nat i
          /\ is_end c = bool_decide (S i = length l))
  /\ make_commands (replicate 2000 x41) 2 1024 =
     Some [ mkCorsairCommand 2 5 64 false 0 1016 (replicate 1016 x41);
            mkCorsairCommand 2 5 64 true 1 984
              (replicate 984 x41 ++ replicate 32 x00) ].
Proof.
  intros HS _. split; [| by vm_compute].
  destruct (gen_run_enough op max_len P HS) as (l & Hrun & _ & Hcount & Hall).
  exists l. split_and!; try done.
  intros i c Hi. destruct (Hall i c Hi) as (_ & _ & _ & Hpn & _ & _ & Hend).
  split; [lia | done].
Qed.

Lemma make_commands_count_witness :
  8 < 10 /\ [x0a; x0b; x0c; x0d; x0e] <> []
  /\ exists l, make_commands [x0a; x0b; x0c; x0d; x0e] 2 10 = Some l
       /\ len l = ceil_div (len [x0a; x0b; x0c; x0d; x0e]) (10 - 8)
       /\ forall i c, l !! i = Some c ->
            part_num c = Z.of_nat i
            /\ is_end c = bool_decide (S i = length l).
Proof.
  split_and!; [lia | done |].
  apply (make_commands_count [x0a; x0b; x0c; x0d; x0e] 2 10); [lia | done].
Defined.

(** C2 as worded fails twice.  It is stated for every packet size, but
    with [S = 7] a one-byte payload is never consumed: the generator
    yields packet after packet, while [ceil(1 / (7-8))] is [-1].  And the
    second packet of the 2000-byte example carries 32 padding bytes, not
    40. *)
Lemma make_commands_count_counterexample :
  ~ (forall (P : bytes) (max_len : Z), P <> [] ->
       exists l, make_commands P 2 max_len = Some l
                 /\ len l = ceil_div (len P) (max_len - 8))
  /\ (forall n, length (gen_take 2 7 n (mkGen [x41] 0)) = n)
  /\ ~ (exists c0 c1,
          make_commands (replicate 2000 x41) 2 1024 = Some [c0; c1]
          /\ slice_from (data c1) (datalen c1) = zeros 40).
Proof.
  split_and!.
  - intros Hall. destruct (Hall [x41] 7 ltac:(done)) as (l & Hrun & _).
    unfold make_commands in Hrun.
    rewrite gen_run_diverges in Hrun; [done | lia | done].
  - intros n. apply gen_take_stuck; [lia | done].
  - intros (c0 & c1 & Hrun & Hpad).
    vm_compute in Hrun. injection Hrun as _ <-.
    vm_compute in Hpad. discriminate Hpad.
Qed.

(** C7.  For every payload and every packet size, each packet
    [make_commands] yields has [datalen <= S - 8], and each packet that
    is followed by another has [datalen = S - 8].  This is stated for
    every finite prefix of the generator's output, and for its complete
    output whenever it terminates. *)
Theorem make_commands_datalen (P : bytes) (op max_len : Z) :
  (forall n,
     let l := gen_take op max_len n (mkGen P 0) in
     Forall (fun c => datalen c <= max_len - 8) l
     /\ Forall (fun c => datalen c = max_len - 8) (removelast l))
  /\ from_option
       (fun l => Forall (fun c => datalen c <= max_len - 8) l
                 /\ Forall (fun c => datalen c = max_len - 8) (removelast l))
       True (make_commands P op max_len).
Proof.
  split; [intros n; apply gen_take_datalen |].
  destruct (make_commands P op max_len) as [l |] eqn:Hrun; [| done].
  simpl. unfold make_commands in Hrun.
  rewrite <- (gen_run_take _ _ _ _ _ Hrun (length l)) by done.
  apply gen_take_datalen.
Qed.

(** C9.  For every packet size, an empty payload yields no packet: the
    generator is exhausted at its first resumption. *)
Theorem make_commands_empty (op max_len : Z) :
  next_command op max_len (mkGen [] 0) = None
  /\ make_commands [] op max_len = Some [].
Proof. split; reflexivity. Qed.

(** ** Serialization *)

Lemma byte_of_int_some z :
  0 <= z < 256 -> exists b, byte_of_int z = Some b /\ int_of_byte b = z.
Proof.
  intros Hz. unfold byte_of_int, int_of_byte.
  destruct (Z.leb_spec 0 z); [| lia]. destruct (Z.ltb_spec z 256); [| lia].
  simpl. destruct (Byte.of_N (Z.to_N z)) as [b |] eqn:E.
  - exists b. split; [done |]. apply Byte.to_of_N in E. lia.
  - apply Byte.of_N_None_iff in E. lia.
Qed.

Lemma int_of_byte_range b : 0 <= int_of_byte b < 256.
Proof.
  unfold int_of_byte. pose proof (Byte.to_N_bounded b). lia.
Qed.

Lemma to_bytes_le2_some n :
  0 <= n < 65536 ->
  exists lo hi, to_bytes_le2 n = Some [lo; hi]
                /\ int_of_byte lo + 256 * int_of_byte hi = n.
Proof.
  intros Hn. unfold to_bytes_le2.
  destruct (Z.leb_spec 0 n); [| lia]. destruct (Z.ltb_spec n 65536); [| lia].
  destruct (byte_of_int_some (n mod 256)) as (lo & Hlo & Elo).
  { apply Z.mod_pos_bound. lia. }
  destruct (byte_of_int_some (n / 256)) as (hi & Hhi & Ehi).
  { split; [apply Z.div_pos; lia | apply Z.div_lt_upper_bound; lia]. }
  exists lo, hi. simpl. unfold bytes_of_ints. simpl. rewrite Hlo, Hhi. simpl.
  split; [done |]. rewrite Elo, Ehi.
  pose proof (Z.div_mod n 256). lia.
Qed.

Lemma to_bytes_in_range (c : CorsairCommand) :
  0 <= opcode c < 256 -> 0 <= unknown1 c < 256 -> 0 <= unknown2 c < 256 ->
  0 <= part_num c < 65536 -> 0 <= datalen c < 65536 ->
  exists bs, to_bytes c = Some bs
             /\ len bs = len (data c) + 8 /\ wire_layout c bs.
Proof.
  intros Hop Hu1 Hu2 Hpn Hdl.
  destruct (byte_of_int_some _ Hop) as (b0 & H0 & E0).
  destruct (byte_of_int_some _ Hu1) as (b1 & H1 & E1).
  destruct (byte_of_int_some _ Hu2) as (b2 & H2 & E2).
  destruct (byte_of_int_some (if is_end c then 1 else 0)) as (b3 & H3 & E3);
    [destruct (is_end c); lia |].
  destruct (to_bytes_le2_some _ Hpn) as (b4 & b5 & H45 & E45).
  destruct (to_bytes_le2_some _ Hdl) as (b6 & b7 & H67 & E67).
  exists ([b0; b1; b2; b3; b4; b5; b6; b7] ++ data c).
  split_and!.
  - unfold to_bytes, bytes_of_ints. simpl.
    rewrite H0, H1, H2, H3. simpl. rewrite H45, H67. done.
  - rewrite len_app. unfold len. simpl. lia.
  - by exists b0, b1, b2, b3, b4, b5, b6, b7.
Qed.

Lemma int_of_byte_inj b z b' :
  int_of_byte b = z -> byte_of_int z = Some b' -> b = b'.
Proof.
  intros <- Hb'. pose proof (int_of_byte_range b).
  unfold byte_of_int, int_of_byte in *.
  destruct (Z.leb_spec 0 (Z.of_N (to_N b))); [| lia].
  destruct (Z.ltb_spec (Z.of_N (to_N b)) 256); [| lia].
  simpl in Hb'. rewrite N2Z.id, Byte.of_to_N in Hb'. congruence.
Qed.

Lemma byte_of_int_inv (z : Z) (b : byte) :
  byte_of_int z = Some b -> 0 <= z < 256 /\ int_of_byte b = z.
Proof.
  unfold byte_of_int, int_of_byte.
  destruct (Z.leb_spec 0 z); [| done]. destruct (Z.ltb_spec z 256); [| done].
  simpl. intros E. split; [lia |]. apply Byte.to_of_N in E. lia.
Qed.

Lemma to_bytes_le2_inv (n : Z) (bs : bytes) :
  to_bytes_le2 n = Some bs -> 0 <= n < 65536.
Proof.
  unfold to_bytes_le2.
  destruct (Z.leb_spec 0 n); [| done]. destruct (Z.ltb_spec n 65536); [| done].
  intros _. lia.
Qed.

Lemma to_bytes_inv (c : CorsairCommand) (bs : bytes) :
  to_bytes c = Some bs ->
  (0 <= opcode c < 256 /\ 0 <= unknown1 c < 256 /\ 0 <= unknown2 c < 256)
  /\ 0 <= part_num c < 65536 /\ 0 <= datalen c < 65536.
Proof.
  unfold to_bytes, bytes_of_ints. simpl.
  destruct (byte_of_int (opcode c)) as [b0 |] eqn:E0; [| done].
  destruct (byte_of_int (unknown1 c)) as [b1 |] eqn:E1; [| done].
  destruct (byte_of_int (unknown2 c)) as [b2 |] eqn:E2; [| done].
  destruct (byte_of_int (if is_end c then 1 else 0)) as [b3 |]; [| done].
  simpl.
  destruct (to_bytes_le2 (part_num c)) as [pn |] eqn:E4; [| done].
  destruct (to_bytes_le2 (datalen c)) as [dl |] eqn:E5; [| done].
  intros _.
  apply byte_of_int_inv in E0 as [? _], E1 as [? _], E2 as [? _].
  apply to_bytes_le2_inv in E4, E5. done.
Qed.

(** Every command in a drained generator's output was yielded by one
    resumption on a non-empty remainder. *)
Lemma gen_run_yielded (op max_len : Z) (fuel : nat) :
  forall st l, gen_run op max_len fuel st = Some l ->
  Forall (fun c => exists b bs k st',
            next_command op max_len (mkGen (b :: bs) k) = Some (c, st')) l.
Proof.
  induction fuel as [| fuel IH]; intros st l Hrun; [done |].
  simpl in Hrun.
  destruct (next_command op max_len st) as [[c st'] |] eqn:Hnext.
  - destruct (gen_run op max_len fuel st') as [l' |] eqn:E; [| done].
    injection Hrun as <-. constructor; [| by apply (IH st')].
    destruct st as [[| b bs] k]; [done |]. by exists b, bs, k, st'.
  - injection Hrun as <-. constructor.
Qed.

Lemma yielded_padding (op max_len : Z) (b : byte) (bs : bytes) (k : Z)
    (c : CorsairCommand) (st' : gen_state) :
  8 < max_len ->
  next_command op max_len (mkGen (b :: bs) k) = Some (c, st') ->
  data c = payload_of c ++ zeros (max_len - 8 - datalen c)
  /\ len (payload_of c) = datalen c
  /\ 0 < datalen c.
Proof.
  intros Hgt Hnext.
  assert (Hpos : 0 < max_len - HEADER_SIZE) by (unfold HEADER_SIZE; lia).
  rewrite (payload_of_first op max_len Hpos b bs k c st' Hnext).
  rewrite next_command_pos in Hnext by done. injection Hnext as <- _.
  cbn [data datalen]. unfold HEADER_SIZE in *.
  set (d := b :: bs). assert (0 < len d) by (unfold len, d; simpl; lia).
  clearbody d.
  destruct (Z.le_gt_cases (max_len - 8) (len d)).
  - rewrite Z.min_l by lia. split_and!; [| | lia].
    + f_equal. unfold zeros. f_equal. lia.
    + unfold len in *. rewrite length_take. lia.
  - rewrite Z.min_r by lia. split_and!; [done | | lia].
    unfold len in *. rewrite length_take. lia.
Qed.

(** A serialization, when there is one, has the wire layout. *)
Lemma to_bytes_some_layout (c : CorsairCommand) (bs : bytes) :
  to_bytes c = Some bs -> len bs = len (data c) + 8 /\ wire_layout c bs.
Proof.
  intros Hbs. destruct (to_bytes_inv c bs Hbs) as ((Hop & Hu1 & Hu2) & Hpn & Hdl).
  destruct (to_bytes_in_range c Hop Hu1 Hu2 Hpn Hdl) as (bs' & Hbs' & Hl & Hw).
  by replace bs with bs' by congruence.
Qed.

(** The reserved bytes of a layout are those of the fields. *)
Lemma wire_layout_reserved (c : CorsairCommand) (bs : bytes) :
  unknown1 c = 5 -> unknown2 c = 64 -> wire_layout c bs ->
  bs !! 1%nat = Some x05 /\ bs !! 2%nat = Some x40
  /\ drop 8 bs = data c.
Proof.
  intros E1 E2 (b0 & b1 & b2 & b3 & b4 & b5 & b6 & b7 & -> & _ & H1 & H2 & _).
  split_and!; [| | done]; simpl; f_equal.
  - apply (int_of_byte_inj _ 5); [congruence | done].
  - apply (int_of_byte_inj _ 64); [congruence | done].
Qed.

(** C3.  For every [CorsairCommand] holding what its fields are declared
    to hold ([well_typed]: an [opcode] byte, the constants [0x05] and
    [0x40], 16-bit [part_num] and [datalen]) and whose data is [S-8]
    bytes, [to_bytes()] returns exactly [S] bytes: byte 0 the opcode,
    byte 1 [0x05], byte 2 [0x40], byte 3 [0x01] if [is_end] else [0x00],
    bytes 4-5 [part_num] and bytes 6-7 [datalen], both 16-bit
    little-endian, and from byte 8 on the data block.  With the default
    packet size 1024, [make_commands] terminates on every payload, and
    every serialized packet it produced is 1024 bytes in that layout, the
    data block being the payload followed by zeros; the packets of a
    payload of at most 65536 packets, with an opcode byte, are all
    [well_typed] and all serialize. *)
Theorem to_bytes_layout :
  (forall (c : CorsairCommand) (size : Z),
     well_typed c -> len (data c) = size - 8 ->
     exists bs, to_bytes c = Some bs /\ len bs = size /\ wire_layout c bs
                /\ bs !! 1%nat = Some x05 /\ bs !! 2%nat = Some x40
                /\ drop 8 bs = data c)
  /\ (forall (P : bytes) (op : Z),
        exists l, make_commands P op 1024 = Some l
          /\ Forall (fun c => forall bs, to_bytes c = Some bs ->
                len bs = 1024 /\ wire_layout c bs
                /\ bs !! 1%nat = Some x05 /\ bs !! 2%nat = Some x40
                /\ drop 8 bs = payload_of c ++ zeros (1016 - datalen c)) l
          /\ (0 <= op < 256 -> len P <= 65536 * 1016 ->
              Forall (fun c => well_typed c /\ is_Some (to_bytes c)) l)).
Proof.
  split.
  - intros c size (Hop & Hu1 & Hu2 & Hpn & Hdl) Hlen.
    destruct (to_bytes_in_range c) as (bs & Hbs & Hl & Hw); try lia.
    destruct (wire_layout_reserved c bs Hu1 Hu2 Hw) as (H1 & H2 & Hd).
    exists bs. split_and!; try done. lia.
  - intros P op.
    destruct (gen_run_enough op 1024 P ltac:(lia)) as (l & Hrun & _ & Hn & Hall).
    exists l. split_and!; [done | |].
    + pose proof (gen_run_yielded op 1024 _ _ l Hrun) as Hy.
      apply Forall_lookup_2. intros i c Hi bs Hbs.
      destruct (Hall i c Hi) as (_ & Eu1 & Eu2 & _ & Elen & _).
      destruct (to_bytes_some_layout c bs Hbs) as [Hl Hw].
      destruct (wire_layout_reserved c bs Eu1 Eu2 Hw) as (H1 & H2 & Hd).
      rewrite Forall_lookup in Hy.
      destruct (Hy i c Hi) as (b & bs' & k & st' & Hnext).
      destruct (yielded_padding op 1024 b bs' k c st' ltac:(lia) Hnext)
        as (Hpad & _ & _).
      split_and!; try done; [lia |].
      rewrite Hd. rewrite Hpad at 1. do 2 f_equal.
    + intros Hop HP. apply Forall_lookup_2. intros i c Hi.
      destruct (Hall i c Hi) as (Eop & Eu1 & Eu2 & Epn & Elen & Edl & _).
      pose proof (lookup_lt_Some _ _ _ Hi) as Hlt.
      pose proof (ceil_div_bounds (len P) (1024 - 8) ltac:(lia)) as Hceil.
      rewrite <- Hn in Hceil. unfold len in Hceil at 1 3.
      assert (Hty : well_typed c) by (unfold well_typed; lia).
      split; [done |]. destruct Hty as (? & ? & ? & ? & ?).
      destruct (to_bytes_in_range c) as (bs & Hbs & _); try lia.
      by exists bs.
Qed.

Lemma to_bytes_layout_witness :
  (exists bs,
     to_bytes (mkCorsairCommand 2 5 64 true 258 3 [x0a; x0b; x0c; x00]) = Some bs
     /\ len bs = 12
     /\ wire_layout (mkCorsairCommand 2 5 64 true 258 3 [x0a; x0b; x0c; x00]) bs
     /\ bs !! 1%nat = Some x05 /\ bs !! 2%nat = Some x40
     /\ drop 8 bs = [x0a; x0b; x0c; x00])
  /\ (exists l, make_commands [x0a; x0b; x0c] 2 1024 = Some l
        /\ Forall (fun c => well_typed c /\ is_Some (to_bytes c)) l).
Proof.
  split.
  - apply (proj1 to_bytes_layout
             (mkCorsairCommand 2 5 64 true 258 3 [x0a; x0b; x0c; x00]) 12);
      [unfold well_typed; simpl; lia | done].
  - destruct (proj2 to_bytes_layout [x0a; x0b; x0c] 2) as (l & Hl & _ & Hall).
    exists l. split; [done |]. apply Hall; [lia | unfold len; simpl; lia].
Defined.

(** ** Truncation and rounding error *)

Lemma py_int_range (q : Q) (n : Z) :
  0 <= n -> (-1 < q)%Q -> (q < inject_Z (n + 1))%Q -> 0 <= py_int q <= n.
Proof.
  destruct q as [a d]. unfold Qlt, py_int. simpl. intros Hn Hlo Hhi.
  destruct (Z.le_gt_cases 0 a) as [Ha | Ha].
  - rewrite Z.quot_div_nonneg by lia. split.
    + apply Z.div_pos; lia.
    + apply Z.lt_succ_r. apply Z.div_lt_upper_bound; lia.
  - assert (E : a ÷ Z.pos d = 0); [| rewrite E; lia].
    replace a with (- (- a)) by lia. rewrite Z.quot_opp_l by lia.
    rewrite Z.quot_small; lia.
Qed.

Lemma py_int_quarter (q : Q) (m : Z) :
  (q == m # 4)%Q -> 0 <= m -> py_int q = m / 4.
Proof.
  destruct q as [a d]. unfold Qeq, py_int. simpl. intros E Hm.
  assert (0 <= a) by nia.
  rewrite Z.quot_div_nonneg by lia.
  rewrite <- (Z.div_mul_cancel_r a (Z.pos d) 4) by lia.
  rewrite E. rewrite (Z.mul_comm (Z.pos d) 4).
  apply Z.div_mul_cancel_r; lia.
Qed.

Lemma float_eps_small : (0 <= float_eps <= 1 # 1000000)%Q.
Proof. split; unfold Qle; by vm_compute. Qed.

Lemma float_eta_small : (0 <= float_eta <= 1 # 1000000)%Q.
Proof. split; unfold Qle; by vm_compute. Qed.

Section Rounding.
Context `{FloatLaws}.

(** A rounded value is close to the exact one. *)
Lemma fl_near (q B : Q) :
  (- B <= q <= B)%Q ->
  (q - (B + 1) * (1 # 1000000) <= fl q <= q + (B + 1) * (1 # 1000000))%Q.
Proof.
  intros [Hlo Hhi].
  pose proof (fl_error q) as Herr.
  pose proof float_eps_small as [He0 He1].
  pose proof float_eta_small as [Ht0 Ht1].
  set (eps := float_eps) in *. set (eta := float_eta) in *.
  clearbody eps eta.
  assert (Habs : (Qabs q <= B)%Q) by (apply Qabs_Qle_condition; done).
  pose proof (Qabs_nonneg q) as Hq0.
  set (aq := Qabs q) in *. clearbody aq.
  apply Qabs_Qle_condition in Herr. destruct Herr as [Herr1 Herr2].
  assert (Hprod : (eps * aq <= (1 # 1000000) * B)%Q) by nra.
  split; lra.
Qed.
End Rounding.

(** ** Binary64 rounding satisfies the float laws *)

Lemma py_round_error (x : Q) :
  (- (1 # 2) <= inject_Z (py_round x) - x <= 1 # 2)%Q.
Proof.
  unfold py_round.
  pose proof (Qfloor_le x) as Hlo. pose proof (Qlt_floor x) as Hhi.
  rewrite inject_Z_plus in Hhi. change (inject_Z 1) with 1%Q in Hhi.
  set (f := Qfloor x) in *. clearbody f.
  destruct (Qcompare_spec (x - inject_Z f) (1 # 2)) as [E | E | E].
  - destruct (Z.even f); rewrite ?inject_Z_plus;
      change (inject_Z 1) with 1%Q; lra.
  - lra.
  - rewrite inject_Z_plus. change (inject_Z 1) with 1%Q. lra.
Qed.

Lemma py_round_int (x : Q) (n : Z) : (x == inject_Z n)%Q -> py_round x = n.
Proof.
  intros E. unfold py_round.
  assert (Hf : Qfloor x = n) by (rewrite E; apply Qfloor_Z).
  rewrite Hf.
  destruct (Qcompare_spec (x - inject_Z n) (1 # 2)) as [E' | E' | E'];
    [lra | done | lra].
Qed.

Lemma pow2_pos (k : Z) : (0 < 2 ^ k)%Q.
Proof. by apply Qpower_0_lt. Qed.

Lemma pow2_inject (n : Z) : 0 <= n -> (inject_Z (2 ^ n) == 2 ^ n)%Q.
Proof. intros Hn. by rewrite Zpower_Qpower. Qed.

(** [ilog2] does not overestimate the exponent. *)
Lemma ilog2_le (x : Q) : (0 < x)%Q -> (2 ^ ilog2 x <= x)%Q.
Proof.
  intros Hx. unfold ilog2.
  destruct (Qle_bool (2 ^ _) x) eqn:E; [by apply Qle_bool_iff |].
  clear E. destruct x as [a d]. cbn [Qnum Qden].
  assert (Ha : 0 < a) by (unfold Qlt in Hx; simpl in Hx; lia).
  destruct (Z.log2_spec a Ha) as [Hla _].
  destruct (Z.log2_spec (Z.pos d) ltac:(lia)) as [_ Hld].
  set (la := Z.log2 a) in *. set (ld := Z.log2 (Z.pos d)) in *.
  assert (0 <= la) by apply Z.log2_nonneg.
  assert (0 <= ld) by apply Z.log2_nonneg.
  clearbody la ld.
  replace (la - ld - 1) with (la - (ld + 1)) by lia.
  rewrite Qpower_minus by done.
  rewrite <- !pow2_inject by lia.
  rewrite (Qmake_Qdiv a d).
  apply Qle_shift_div_l; [unfold Qlt; simpl; lia |].
  unfold Qdiv. rewrite <- Qmult_assoc, (Qmult_comm (/ _)), Qmult_assoc.
  apply Qle_shift_div_r.
  { change 0%Q with (inject_Z 0). rewrite <- Zlt_Qlt.
    apply Z.pow_pos_nonneg; lia. }
  rewrite <- !inject_Z_mult. rewrite <- Zle_Qle.
  replace (Z.succ ld) with (ld + 1) in Hld by lia. nia.
Qed.

Lemma binary64_round_error (q : Q) :
  (Qabs (binary64_round q - q) <= float_eps * Qabs q + float_eta)%Q.
Proof.
  pose proof float_eps_small as [He0 _]. pose proof float_eta_small as [Ht0 _].
  pose proof (Qabs_nonneg q) as Hq0.
  unfold binary64_round. pose proof (Qred_correct q) as Hr.
  set (r := Qred q) in *. clearbody r.
  apply Qabs_Qle_condition.
  destruct (Z.eqb_spec (Qnum r) 0) as [E | Hne].
  { assert (q == 0)%Q as Hz by (rewrite <- Hr; unfold Qeq; simpl; lia).
    split; nra. }
  cbn zeta.
  assert (Hrpos : (0 < Qabs r)%Q).
  { destruct r as [a d]. unfold Qlt. simpl in *. lia. }
  pose proof (ilog2_le _ Hrpos) as He.
  set (e := ilog2 (Qabs r)) in *. clearbody e. rewrite Hr in He.
  set (k := Z.max (e - 52) (-1074)).
  pose proof (pow2_pos k) as Hp.
  pose proof (py_round_error (r / 2 ^ k)) as Hd.
  set (n := inject_Z (py_round (r / 2 ^ k))) in *. clearbody n.
  assert (Ht : (q == r / 2 ^ k * 2 ^ k)%Q) by (rewrite <- Hr; field; lra).
  set (t := (r / 2 ^ k)%Q) in *. clearbody t.
  assert (Hhalf : (2 ^ k * (1 # 2) <= float_eps * Qabs q + float_eta)%Q).
  { unfold k. destruct (Z.max_spec (e - 52) (-1074)) as [[_ ->] | [_ ->]].
    - assert ((2 ^ (-1074) * (1 # 2) == float_eta)%Q) as -> by by vm_compute.
      nra.
    - replace (e - 52) with (e + -52) by lia. rewrite Qpower_plus by done.
      assert ((2 ^ (-52) * (1 # 2) == float_eps)%Q) as E52 by by vm_compute.
      pose proof (pow2_pos e). nra. }
  set (p := (2 ^ k)%Q) in *. clearbody p.
  split; nra.
Qed.

Lemma binary64_round_exact (q : Q) (m : Z) :
  (q == m # 4)%Q -> Z.abs m < 2 ^ 53 -> (binary64_round q == q)%Q.
Proof.
  intros Hq Hm. unfold binary64_round. pose proof (Qred_correct q) as Hr.
  set (r := Qred q) in *. clearbody r.
  destruct (Z.eqb_spec (Qnum r) 0) as [E | Hne].
  { rewrite <- Hr. unfold Qeq. simpl. lia. }
  cbn zeta.
  assert (Hrpos : (0 < Qabs r)%Q).
  { destruct r as [a d]. unfold Qlt. simpl in *. lia. }
  pose proof (ilog2_le _ Hrpos) as He.
  set (e := ilog2 (Qabs r)) in *. clearbody e.
  assert (Hlt : (Qabs r < 2 ^ 51)%Q).
  { rewrite Hr, Hq. unfold Qlt. simpl. lia. }
  assert (He51 : e < 51).
  { apply (Qpower_lt_compat_l_inv 2); [| lra].
    eapply Qle_lt_trans; [exact He | exact Hlt]. }
  set (k := Z.max (e - 52) (-1074)).
  assert (Hk : k <= -2) by (unfold k; lia). clearbody k.
  assert (Hint : (r / 2 ^ k == inject_Z (m * 2 ^ (- k - 2)))%Q).
  { rewrite inject_Z_mult, pow2_inject by lia.
    replace (- k - 2) with (- k + -2) by lia.
    rewrite Qpower_plus, Qpower_opp by done.
    rewrite Hr, Hq, (Qmake_Qdiv m 4).
    pose proof (pow2_pos k).
    change (inject_Z (Z.pos 4)) with 4%Q.
    assert ((2 ^ (-2) == 1 # 4)%Q) as -> by by vm_compute.
    field. lra. }
  rewrite (py_round_int _ _ Hint).
  rewrite inject_Z_mult, pow2_inject by lia.
  replace (- k - 2) with (- k + -2) by lia.
  rewrite Qpower_plus, Qpower_opp by done.
  rewrite Hq, (Qmake_Qdiv m 4).
  pose proof (pow2_pos k).
  change (inject_Z (Z.pos 4)) with 4%Q.
  assert ((2 ^ (-2) == 1 # 4)%Q) as -> by by vm_compute.
  field. lra.
Qed.

Lemma binary64_laws : @FloatLaws binary64.
Proof.
  split; cbn [fl binary64].
  - intros q q' E. unfold binary64_round.
    by rewrite (Qred_complete _ _ E).
  - apply binary64_round_error.
  - apply binary64_round_exact.
Qed.

Lemma inject_Z_range (a z b : Z) :
  a <= z <= b -> (inject_Z a <= inject_Z z <= inject_Z b)%Q.
Proof. intros [? ?]. split; rewrite <- Zle_Qle; done. Qed.

(** ** Smoothing *)

Section Smoothing.
Context `{FloatLaws}.

Lemma fl_Proper : Proper (Qeq ==> Qeq) fl.
Proof. intros q q' E. by apply fl_proper. Qed.

#[local] Existing Instance fl_Proper.

(** One channel stays within [0..255] for any factor in [[0,1]]. *)
Lemma smooth_channel_range (alpha : Q) (p s : Z) :
  (0 <= alpha <= 1)%Q -> channel_ok p -> channel_ok s ->
  channel_ok (smooth_channel alpha p s).
Proof.
  intros Ha Hp Hs. unfold channel_ok in *.
  apply inject_Z_range in Hp, Hs.
  change (inject_Z 0) with 0%Q in Hp, Hs.
  change (inject_Z 255) with 255%Q in Hp, Hs.
  unfold smooth_channel, fadd, fmul, fsub.
  set (P := inject_Z p) in *. set (S' := inject_Z s) in *. clearbody P S'.
  pose proof (fl_near (1 - alpha) 1 ltac:(lra)) as Ht.
  set (t := fl (1 - alpha)) in *. clearbody t.
  assert (Hx1 : (- (1 # 100) <= P * t <= 255 * (1 - alpha) + (1 # 100))%Q)
    by (split; nra).
  pose proof (fl_near (P * t) 256 ltac:(lra)) as Hu.
  set (u := fl (P * t)) in *. clearbody u.
  assert (Hx2 : (0 <= S' * alpha <= 255 * alpha)%Q) by (split; nra).
  pose proof (fl_near (S' * alpha) 255 ltac:(lra)) as Hw.
  set (w := fl (S' * alpha)) in *. clearbody w.
  pose proof (fl_near (u + w) 256 ltac:(lra)) as Hr.
  apply py_int_range; [lia | lra |].
  change (inject_Z (255 + 1)) with 256%Q. lra.
Qed.

Lemma smooth_range (alpha : Q) (last rgb_color : RGBColor) :
  (0 <= alpha <= 1)%Q -> rgb_ok last -> rgb_ok rgb_color ->
  rgb_ok (smooth alpha last rgb_color).
Proof.
  intros Ha (? & ? & ?) (? & ? & ?).
  split_and!; by apply smooth_channel_range.
Qed.

(** With the default factor the arithmetic is exact, and the truncation
    is a floor. *)
Lemma smooth_channel_default (p s : Z) :
  channel_ok p -> channel_ok s ->
  smooth_channel DEFAULT_SMOOTHING p s = (3 * p + s) / 4.
Proof.
  unfold channel_ok. intros Hp Hs.
  unfold smooth_channel, fadd, fmul, fsub, DEFAULT_SMOOTHING.
  apply py_int_quarter; [| lia].
  assert (E1 : (fl (1 - (1 # 4)) == 3 # 4)%Q)
    by (apply (fl_exact _ 3); [reflexivity | by vm_compute]).
  assert (E2 : (fl (inject_Z p * (3 # 4)) == 3 * p # 4)%Q).
  { rewrite (fl_exact _ (3 * p)); [| | lia].
    - unfold Qeq. simpl. lia.
    - unfold Qeq. simpl. lia. }
  assert (E3 : (fl (inject_Z s * (1 # 4)) == s # 4)%Q).
  { rewrite (fl_exact _ s); [| | lia].
    - unfold Qeq. simpl. lia.
    - unfold Qeq. simpl. lia. }
  rewrite E1, E2, E3.
  rewrite (fl_exact _ (3 * p + s)); [| | lia].
  - unfold Qeq. simpl. lia.
  - unfold Qeq. simpl. lia.
Qed.
End Smoothing.

(** ** The smoothing loop *)

Section Loop.
Context `{FloatModel}.

Lemma smooth_loop_spec (sampled : nat -> RGBColor) (alpha : Q) (n : nat) :
  forall (o : nat) (colors : list RGBColor),
  (o + n <= length colors)%nat ->
  exists colors',
    smooth_loop sampled alpha (seq o n) colors = (colors', true)
    /\ length colors' = length colors
    /\ forall i last, colors !! i = Some last ->
         colors' !! i =
         Some (if decide (o <= i < o + n)%nat
               then smooth alpha last (sampled i) else last).
Proof.
  induction n as [| n IH]; intros o colors Hlen.
  { exists colors. split_and!; try done.
    intros i last Hi. case_decide; [lia | done]. }
  destruct (lookup_lt_is_Some_2 colors o ltac:(lia)) as [last0 Ho].
  cbn [seq smooth_loop]. rewrite Ho.
  set (colors1 := <[o := smooth alpha last0 (sampled o)]> colors).
  destruct (IH (S o) colors1) as (colors' & Hrun & Hl & Hall).
  { unfold colors1. rewrite length_insert. lia. }
  exists colors'. split_and!; [done | |].
  - rewrite Hl. apply length_insert.
  - intros i last Hi. destruct (decide (i = o)) as [-> | Hne].
    + rewrite (Hall o (smooth alpha last0 (sampled o))).
      * replace last with last0 by congruence.
        repeat case_decide; (done || lia).
      * unfold colors1. apply list_lookup_insert_eq.
        by apply lookup_lt_Some in Ho.
    + rewrite (Hall i last).
      * repeat case_decide; (done || lia).
      * unfold colors1. by rewrite list_lookup_insert_ne.
Qed.

Context `{Libm} `{QColorApi}.

Lemma analyze_colors (st : LEDController) (image : QImage)
    (width height : Z) (alpha sat : Q) :
  enabled st = true -> length (last_rgb_colors st) = 24%nat ->
  let st' := fst (analyze_and_set_colors st image width height alpha sat) in
  enabled st' = true
  /\ length (last_rgb_colors st') = 24%nat
  /\ forall i last, (i < 24)%nat -> last_rgb_colors st !! i = Some last ->
       last_rgb_colors st' !! i =
       Some (smooth alpha last (sample_led image width height sat i)).
Proof.
  intros Hen Hlen. unfold analyze_and_set_colors. rewrite Hen. cbn [negb].
  destruct (smooth_loop_spec (sample_led image width height sat) alpha 24 0
              (last_rgb_colors st) ltac:(lia))
    as (colors' & Hrun & Hl & Hall).
  rewrite Hrun. cbn [fst with_colors last_rgb_colors enabled].
  split_and!; [done | congruence |].
  intros i last Hi Hlast. rewrite (Hall i last Hlast).
  case_decide; [done | lia].
Qed.
End Loop.

Lemma init_enabled (backend : Backend) :
  enabled (fst (init backend)) = true ->
  last_rgb_colors (fst (init backend)) = replicate 24 black.
Proof.
  unfold init. destruct (connect_to_openrgb backend) as [[c |] tr]; done.
Qed.

(** C4, as the code has it.  The persisted colours are seeded to black
    for all 24 LEDs.  On every tick, for every LED index [i] in [0..23]
    and every channel, the new persisted value is
    [int(prev[i] * (1 - a) + sampled[i] * a)]: the float expression is
    truncated toward zero, not rounded to nearest.  With the default
    factor [a = 0.25] that is the floor of [(3 * prev + sampled) / 4]. *)
Theorem smoothing_update `{FloatLaws} `{Libm} `{QColorApi} :
  (forall backend, enabled (fst (init backend)) = true ->
     last_rgb_colors (fst (init backend)) = replicate 24 black)
  /\ (forall st image width height alpha sat i last,
        enabled st = true -> length (last_rgb_colors st) = 24%nat ->
        (i < 24)%nat -> last_rgb_colors st !! i = Some last ->
        last_rgb_colors
          (fst (analyze_and_set_colors st image width height alpha sat)) !! i
        = Some (smooth alpha last (sample_led image width height sat i)))
  /\ (forall p s, channel_ok p -> channel_ok s ->
        smooth_channel DEFAULT_SMOOTHING p s = (3 * p + s) / 4).
Proof.
  split_and!.
  - apply init_enabled.
  - intros st image width height alpha sat i last Hen Hlen Hi Hlast.
    by apply analyze_colors.
  - apply smooth_channel_default.
Qed.

Lemma smoothing_update_witness :
  last_rgb_colors (fst (init live_backend)) = replicate 24 black
  /\ last_rgb_colors
       (fst (@analyze_and_set_colors binary64 table_libm int_qcolor
               (fst (init live_backend)) white_frame 479 479 (1 # 4) (5 # 4)))
       !! 3%nat
     = Some (@smooth binary64 (1 # 4) black
               (@sample_led binary64 table_libm int_qcolor
                  white_frame 479 479 (5 # 4) 3))
  /\ @smooth_channel binary64 DEFAULT_SMOOTHING 0 255 = (3 * 0 + 255) / 4.
Proof.
  pose proof (@smoothing_update binary64 binary64_laws
                table_libm int_qcolor) as (Hseed & Htick & Hfloor).
  split_and!.
  - apply Hseed. reflexivity.
  - apply Htick; [reflexivity | reflexivity | lia | reflexivity].
  - apply Hfloor; unfold channel_ok; lia.
Defined.

(** C4 as worded rounds to nearest.  From the black seed, one tick on a
    white frame with the default factor leaves 63 in every channel of
    LED 0: [int(0 * 0.75 + 255 * 0.25) = int(63.75) = 63], where rounding
    gives 64. *)
Lemma smoothing_update_counterexample :
  @sample_led binary64 table_libm int_qcolor
     white_frame 479 479 (5 # 4) 0 = white
  /\ last_rgb_colors (fst (init live_backend)) !! 0%nat = Some black
  /\ last_rgb_colors
       (fst (@timer_tick binary64 table_libm int_qcolor
               (fst (init live_backend)) white_frame)) !! 0%nat
     = Some (mkRGB 63 63 63)
  /\ py_round (0 * (1 - (1 # 4)) + 255 * (1 # 4)) = 64
  /\ mkRGB 63 63 63 <> mkRGB 64 64 64.
Proof. split_and!; by vm_compute. Qed.

Lemma table_libm_laws : @LibmLaws table_libm.
Proof.
  assert (Hall : forall q, In q (cos_table ++ sin_table) -> (-1 <= q <= 1)%Q).
  { apply (proj1 (List.Forall_forall _ _)).
    repeat (apply List.Forall_cons; [split; unfold Qle; by vm_compute |]).
    apply List.Forall_nil. }
  split; intros k; cbn [math_cos math_sin table_libm].
  - destruct (nth_in_or_default (Z.to_nat k) cos_table 0%Q) as [Hin | ->].
    + apply Hall, in_or_app. by left.
    + split; unfold Qle; by vm_compute.
  - destruct (nth_in_or_default (Z.to_nat k) sin_table 0%Q) as [Hin | ->].
    + apply Hall, in_or_app. by right.
    + split; unfold Qle; by vm_compute.
Qed.

Lemma ticks_invariant `{FloatLaws} `{Libm} `{QColorApi}
    (frames : list QImage) (width height : Z) (alpha sat : Q) :
  (0 <= alpha <= 1)%Q ->
  (forall image i, image ∈ frames -> (i < 24)%nat ->
     rgb_ok (sample_led image width height sat i)) ->
  forall st, enabled st = true -> length (last_rgb_colors st) = 24%nat ->
  Forall rgb_ok (last_rgb_colors st) ->
  let st' := ticks st frames width height alpha sat in
  length (last_rgb_colors st') = 24%nat /\ Forall rgb_ok (last_rgb_colors st').
Proof.
  intros Ha. induction frames as [| image frames IH];
    intros Hsam st Hen Hlen Hok; [done |].
  cbn [ticks].
  destruct (analyze_colors st image width height alpha sat Hen Hlen)
    as (Hen' & Hlen' & Hcol).
  apply IH; try done.
  - intros image' i Hin Hi. apply Hsam; [by right | done].
  - apply Forall_lookup_2. intros i c Hi.
    pose proof (lookup_lt_Some _ _ _ Hi) as Hlt. rewrite Hlen' in Hlt.
    destruct (lookup_lt_is_Some_2 (last_rgb_colors st) i ltac:(lia))
      as [last Hlast].
    rewrite (Hcol i last Hlt Hlast) in Hi. injection Hi as <-.
    apply smooth_range; [done | | apply Hsam; [by left | done]].
    by apply (Forall_lookup_1 _ _ _ _ Hok Hlast).
Qed.

(** C10.  Starting from the all-black seed of a constructed, enabled
    controller, after every smoothing tick the persisted list still has
    24 colours and each channel of each is an integer in [0..255],
    provided the smoothing factor is in [[0,1]] and the sampled colours
    have channels in [0..255]. *)
Theorem smoothing_invariant `{FloatLaws} `{Libm} `{QColorApi}
    (backend : Backend) (frames : list QImage) (width height : Z)
    (alpha sat : Q) :
  (0 <= alpha <= 1)%Q ->
  enabled (fst (init backend)) = true ->
  (forall image i, image ∈ frames -> (i < 24)%nat ->
     rgb_ok (sample_led image width height sat i)) ->
  let st := ticks (fst (init backend)) frames width height alpha sat in
  length (last_rgb_colors st) = 24%nat /\ Forall rgb_ok (last_rgb_colors st).
Proof.
  intros Ha Hen Hsam.
  pose proof (init_enabled backend Hen) as Hseed.
  apply ticks_invariant; try done.
  - rewrite Hseed. apply length_replicate.
  - rewrite Hseed. apply Forall_replicate. unfold rgb_ok, channel_ok.
    simpl. lia.
Qed.

Lemma white_frame_sample (i : nat) :
  @sample_led binary64 table_libm int_qcolor
     white_frame 479 479 (5 # 4) i = white.
Proof.
  unfold sample_led. destruct (sample_point 479 479 (Z.of_nat i)) as [x y].
  by vm_compute.
Qed.

Lemma smoothing_invariant_witness :
  let st := @ticks binary64 table_libm int_qcolor
              (fst (init live_backend)) [white_frame; white_frame]
              479 479 (1 # 4) (5 # 4) in
  length (last_rgb_colors st) = 24%nat /\ Forall rgb_ok (last_rgb_colors st).
Proof.
  apply (@smoothing_invariant binary64 binary64_laws
           table_libm int_qcolor).
  - split; unfold Qle; simpl; lia.
  - reflexivity.
  - intros image i Hin _.
    assert (image = white_frame) as ->
      by (apply elem_of_cons in Hin as [-> | Hin]; [done |];
          apply elem_of_cons in Hin as [-> | Hin]; [done |];
          by apply elem_of_nil in Hin).
    rewrite white_frame_sample. unfold rgb_ok, channel_ok. simpl. lia.
Defined.

(** ** Sampling geometry *)

Section Geometry.
Context `{FloatLaws} `{!Libm} `{!LibmLaws}.

(** [int(479 / 2 + 239 * t)] for a [t] between [-1] and [1]. *)
Lemma ring_offset_range (t : Q) :
  (-1 <= t <= 1)%Q ->
  0 <= py_int (fadd (fdiv (inject_Z 479) 2) (fmul (inject_Z 239) t)) <= 478.
Proof.
  intros Ht. unfold fadd, fdiv, fmul.
  change (inject_Z 479) with 479%Q. change (inject_Z 239) with 239%Q.
  set (q := (479 / 2)%Q).
  assert (Hq : (q == 479 # 2)%Q) by reflexivity. clearbody q.
  pose proof (fl_near q 240 ltac:(lra)) as Hh.
  set (h := fl q) in *. clearbody h.
  pose proof (fl_near (239 * t) 239 ltac:(lra)) as Hm.
  set (m := fl (239 * t)) in *. clearbody m.
  pose proof (fl_near (h + m) 479 ltac:(lra)) as Hr.
  apply py_int_range; [lia | lra |].
  change (inject_Z (478 + 1)) with 479%Q. lra.
Qed.

(** C5.  For every LED index [i] in [0..23], the coordinates handed to
    [image.pixel] with the default [width = height = 479] lie within a
    480x480 frame: [0 <= x < 480] and [0 <= y < 480] (indeed
    [1 <= x <= 479] and [0 <= y <= 478]). *)
Theorem sample_point_in_bounds (image : QImage) (i : Z) :
  0 <= i < 24 ->
  img_width image = 480 -> img_height image = 480 ->
  let '(x, y) := sample_point DEFAULT_WIDTH DEFAULT_HEIGHT i in
  (0 <= x < img_width image /\ 0 <= y < img_height image)
  /\ (1 <= x <= 479 /\ 0 <= y <= 478).
Proof.
  intros _ -> ->. unfold sample_point, DEFAULT_WIDTH, DEFAULT_HEIGHT.
  change (Z.min 479 479 / 2) with 239.
  pose proof (ring_offset_range _ (math_cos_range (23 - i))).
  pose proof (ring_offset_range _ (math_sin_range (23 - i))).
  lia.
Qed.
End Geometry.

Lemma sample_point_in_bounds_witness :
  let '(x, y) := @sample_point binary64 table_libm
                   DEFAULT_WIDTH DEFAULT_HEIGHT 11 in
  (0 <= x < img_width white_frame /\ 0 <= y < img_height white_frame)
  /\ (1 <= x <= 479 /\ 0 <= y <= 478).
Proof.
  apply (@sample_point_in_bounds binary64 binary64_laws
           table_libm table_libm_laws white_frame 11);
    [lia | reflexivity | reflexivity].
Defined.

(** The 24 sample points of the default geometry, in binary64. *)
Lemma sample_points_default :
  map (fun i => @sample_point binary64 table_libm
                  DEFAULT_WIDTH DEFAULT_HEIGHT (Z.of_nat i)) (seq 0 24)
  = [(9, 177); (33, 119); (71, 70); (120, 32); (178, 8); (240, 0);
     (302, 8); (360, 32); (409, 70); (447, 120); (471, 177); (479, 239);
     (471, 301); (447, 359); (409, 408); (359, 446); (302, 470); (240, 478);
     (178, 470); (120, 446); (71, 408); (33, 359); (9, 301); (1, 239)].
Proof. by vm_compute. Qed.

(** The bound rests on the default size being one less than the frame:
    nothing in the code clamps.  With [width = height = 480] the sample
    point of LED 11 (angle [pi]) has [x = 480]. *)
Lemma sample_point_no_clamp :
  @sample_point binary64 table_libm 480 480 11 = (480, 240).
Proof. by vm_compute. Qed.

(** ** Saturation boost *)

Lemma scale_range (v a d : Z) :
  0 <= v <= 255 -> 0 <= a <= d -> 0 < d -> 0 <= v * a / d <= 255.
Proof.
  intros Hv Ha Hd. split; [apply Z.div_pos; nia |].
  apply Z.lt_succ_r. apply Z.div_lt_upper_bound; nia.
Qed.

Lemma int_qcolor_laws : @QColorLaws int_qcolor.
Proof.
  split; cbn [toHsv setHsv_rgb int_qcolor].
  - intros [r g b] (Hr & Hg & Hb). unfold channel_ok in *. simpl in *.
    unfold int_toHsv. cbn [red green blue].
    set (mx := Z.max r (Z.max g b)). set (mn := Z.min r (Z.min g b)).
    assert (0 <= mn <= mx /\ mx <= 255) as (Hmn & Hmx) by lia.
    clearbody mx mn.
    destruct (Z.eqb_spec (mx - mn) 0) as [E | Hne]; cbn [hue saturation value].
    + lia.
    + split_and!; try lia.
      * pose proof (Z.mod_pos_bound
          (if r =? mx then 60 * (g - b) / (mx - mn)
           else if g =? mx then 120 + 60 * (b - r) / (mx - mn)
           else 240 + 60 * (r - g) / (mx - mn)) 360 ltac:(lia)). lia.
      * pose proof (Z.mod_pos_bound
          (if r =? mx then 60 * (g - b) / (mx - mn)
           else if g =? mx then 120 + 60 * (b - r) / (mx - mn)
           else 240 + 60 * (r - g) / (mx - mn)) 360 ltac:(lia)). lia.
      * apply Z.div_pos; [| lia].
        pose proof (Z.div_pos mx 2 ltac:(lia) ltac:(lia)). nia.
      * apply Z.lt_succ_r. apply Z.div_lt_upper_bound; [lia |].
        pose proof (Z.div_lt_upper_bound mx 2 mx ltac:(lia) ltac:(lia)). nia.
  - intros h s v Hh Hs Hv. unfold int_setHsv_rgb.
    destruct (Z.ltb_spec h (-1)); [lia |].
    destruct (Z.ltb_spec s 0); [lia |].
    destruct (Z.ltb_spec 255 s); [lia |].
    destruct (Z.ltb_spec v 0); [lia |].
    destruct (Z.ltb_spec 255 v); [lia |]. cbn [orb].
    destruct ((s =? 0) || (h =? -1)).
    { unfold rgb_ok, channel_ok. simpl. lia. }
    pose proof (Z.mod_pos_bound h 360 ltac:(lia)) as Hh'.
    pose proof (Z.mod_pos_bound (h mod 360) 60 ltac:(lia)) as Hf.
    set (f := (h mod 360) mod 60) in *. clearbody f.
    assert (Hsf : 0 <= s * f <= 255 * 59) by nia.
    assert (Hsg : 0 <= s * (60 - f) <= 255 * 60) by nia.
    assert (Hp : 0 <= v * (255 - s) / 255 <= 255)
      by (apply scale_range; lia).
    assert (Hq : 0 <= v * (255 * 60 - s * f) / (255 * 60) <= 255)
      by (apply scale_range; lia).
    assert (Ht : 0 <= v * (255 * 60 - s * (60 - f)) / (255 * 60) <= 255)
      by (apply scale_range; lia).
    destruct (h mod 360 / 60) as [| [[[| |] | [| |] |] | [[| |] | [| |] |] |] |];
      unfold rgb_ok, channel_ok; cbn [red green blue]; lia.
Qed.

Section Saturation.
Context `{FloatLaws} `{!QColorApi} `{!QColorLaws}.

(** With the default factor the product is exact: the saturation handed
    to [setHsv] is [min(255, floor(5 * s / 4))]. *)
Lemma boosted_saturation_default (s : Z) :
  0 <= s <= 255 ->
  boosted_saturation DEFAULT_SATURATION s = Z.min 255 (5 * s / 4).
Proof.
  intros Hs. unfold boosted_saturation, fmul, DEFAULT_SATURATION. f_equal.
  apply py_int_quarter; [| lia].
  rewrite (fl_exact _ (5 * s)); [| | lia].
  - unfold Qeq. simpl. lia.
  - unfold Qeq. simpl. lia.
Qed.

(** C8.  For every sampled pixel colour with channels in [0..255] and
    the default saturation factor 1.25, the saturation passed to
    [setHsv] is [min(255, floor(1.25 * s))], which lies in [0..255], and
    every channel of the colour read back is in [0..255]. *)
Theorem saturation_boost_range (c : RGBColor) :
  rgb_ok c ->
  let s := saturation (toHsv c) in
  boosted_saturation DEFAULT_SATURATION s = Z.min 255 (5 * s / 4)
  /\ 0 <= boosted_saturation DEFAULT_SATURATION s <= 255
  /\ rgb_ok (boost DEFAULT_SATURATION c).
Proof.
  intros Hc. destruct (toHsv_range c Hc) as (Hh & Hs & Hv). cbn zeta.
  pose proof (boosted_saturation_default _ Hs) as E.
  assert (Hb : 0 <= boosted_saturation DEFAULT_SATURATION
                      (saturation (toHsv c)) <= 255).
  { rewrite E. set (s := saturation (toHsv c)) in *. clearbody s.
    assert (0 <= 5 * s / 4) by (apply Z.div_pos; lia). lia. }
  split_and!; [done | lia | lia |].
  unfold boost. apply setHsv_range; [lia | done | done].
Qed.
End Saturation.

Lemma saturation_boost_range_witness :
  let c := mkRGB 200 40 90 in
  let s := saturation (int_toHsv c) in
  @boosted_saturation binary64 DEFAULT_SATURATION s = Z.min 255 (5 * s / 4)
  /\ 0 <= @boosted_saturation binary64 DEFAULT_SATURATION s <= 255
  /\ rgb_ok (@boost binary64 int_qcolor DEFAULT_SATURATION c).
Proof.
  apply (@saturation_boost_range binary64 binary64_laws
           int_qcolor int_qcolor_laws (mkRGB 200 40 90)).
  unfold rgb_ok, channel_ok. simpl. lia.
Defined.

(** ** The LED sink *)

Lemma connect_first_fails (backend : Backend) :
  backend 0%nat = None ->
  connect_to_openrgb backend =
  (backend 1%nat,
   [EvConnect; EvLogWarning; EvSleep 5000; EvConnect]
     ++ match backend 1%nat with None => [EvSleep 5000] | Some _ => [] end).
Proof.
  intros H0. unfold connect_to_openrgb. cbn [seq connect_attempts].
  rewrite H0. by destruct (backend 1%nat).
Qed.

Section Sink.
Context `{FloatModel} `{Libm} `{QColorApi}.

(** A controller that is disabled, has no exit hook and no pending
    single shot ignores everything. *)
Lemma step_disabled (st : LEDController) (a : action) :
  enabled st = false -> atexit_registered st = false ->
  start_timer_scheduled st = false -> step st a = (st, []).
Proof.
  intros Hen Hex Hsc. destruct a; cbn [step].
  - unfold timer_tick, analyze_and_set_colors. by rewrite Hen.
  - unfold set_colors. by rewrite Hen.
  - by rewrite Hex.
  - by rewrite Hsc.
Qed.

Lemma run_disabled (st : LEDController) (acts : list action) :
  enabled st = false -> atexit_registered st = false ->
  start_timer_scheduled st = false -> run st acts = (st, []).
Proof.
  intros Hen Hex Hsc. induction acts as [| a acts IH]; [done |].
  cbn [run]. rewrite step_disabled by done. by rewrite IH.
Qed.

(** C6.  If the first attempt to open a session fails, the connect
    logic logs, sleeps 5 seconds and tries once more: two attempts in
    all, and the result is that of the second.  If the second fails as
    well, the constructed controller is disabled, and whatever is called
    on it afterwards (ticks, pushes, the exit hook) leaves it as it is
    and reaches the backend with nothing: in particular [set_colors]
    writes no LED. *)
Theorem led_connect_retry (backend : Backend) :
  backend 0%nat = None ->
  (let '(r, tr) := connect_to_openrgb backend in
   r = backend 1%nat
   /\ take 4 tr = [EvConnect; EvLogWarning; EvSleep 5000; EvConnect]
   /\ length (filter (fun e => is_connect e = true) tr) = 2%nat)
  /\ (backend 1%nat = None ->
      let st := fst (init backend) in
      enabled st = false
      /\ set_colors st = []
      /\ forall acts, run st acts = (st, [])).
Proof.
  intros Hfst. rewrite (connect_first_fails backend Hfst). split.
  - split_and!; [done | done |]. by destruct (backend 1%nat).
  - intros Hsnd. unfold init.
    rewrite (connect_first_fails backend Hfst), Hsnd.
    cbn [fst]. split_and!; [done | done |].
    intros acts. by apply run_disabled.
Qed.
End Sink.

Lemma led_connect_retry_witness :
  (let '(r, tr) := connect_to_openrgb dead_backend in
   r = dead_backend 1%nat
   /\ take 4 tr = [EvConnect; EvLogWarning; EvSleep 5000; EvConnect]
   /\ length (filter (fun e => is_connect e = true) tr) = 2%nat)
  /\ (let st := fst (init dead_backend) in
      enabled st = false
      /\ set_colors st = []
      /\ forall acts,
           @run binary64 table_libm int_qcolor st acts = (st, [])).
Proof.
  pose proof (@led_connect_retry binary64 table_libm int_qcolor
                dead_backend eq_refl) as [Hconn Hdis].
  split; [exact Hconn | exact (Hdis eq_refl)].
Defined.

(** On a live backend the same calls do reach the LEDs: one tick writes
    all 24 of them. *)
Lemma live_tick_writes :
  length (filter (fun e => is_write e = true)
            (snd (@timer_tick binary64 table_libm int_qcolor
                    (fst (init live_backend)) white_frame))) = 24%nat.
Proof. by vm_compute. Qed.

(** * Further properties of the framing code *)

(** X1.  [to_bytes()] raises exactly when a header field does not fit
    its width: [opcode], [unknown1] or [unknown2] outside [0..255], or
    [part_num] or [datalen] outside [0..65535].  The data block and
    [is_end] never make it fail. *)
Theorem to_bytes_raises_iff (c : CorsairCommand) :
  to_bytes c = None <->
  ~ ((0 <= opcode c < 256 /\ 0 <= unknown1 c < 256 /\ 0 <= unknown2 c < 256)
     /\ 0 <= part_num c < 65536 /\ 0 <= datalen c < 65536).
Proof.
  split.
  - intros Hnone ((Hop & Hu1 & Hu2) & Hpn & Hdl).
    destruct (to_bytes_in_range c Hop Hu1 Hu2 Hpn Hdl) as (bs & Hbs & _).
    congruence.
  - intros Hout. destruct (to_bytes c) as [bs |] eqn:E; [| done].
    exfalso. apply Hout. by apply (to_bytes_inv c bs).
Qed.

Lemma header_eq (h1 h2 : list byte) (d1 d2 : bytes) :
  length h1 = length h2 -> h1 ++ d1 = h2 ++ d2 -> h1 = h2 /\ d1 = d2.
Proof. intros Hl E. by apply app_inj_1. Qed.

Lemma int_of_byte_eq (b b' : byte) : b = b' -> int_of_byte b = int_of_byte b'.
Proof. by intros ->. Qed.

(** X2.  Serialization loses nothing: two commands with the same
    serialization are the same command. *)
Theorem to_bytes_injective (c1 c2 : CorsairCommand) (bs : bytes) :
  to_bytes c1 = Some bs -> to_bytes c2 = Some bs -> c1 = c2.
Proof.
  intros H1 H2.
  destruct (to_bytes_inv _ _ H1) as ((Ho1 & Hu1 & Hv1) & Hp1 & Hd1).
  destruct (to_bytes_inv _ _ H2) as ((Ho2 & Hu2 & Hv2) & Hp2 & Hd2).
  destruct (to_bytes_in_range c1 Ho1 Hu1 Hv1 Hp1 Hd1) as (bs1 & E1 & _ & W1).
  destruct (to_bytes_in_range c2 Ho2 Hu2 Hv2 Hp2 Hd2) as (bs2 & E2 & _ & W2).
  assert (bs1 = bs) as -> by congruence. assert (bs2 = bs) as -> by congruence.
  destruct W1 as (a0 & a1 & a2 & a3 & a4 & a5 & a6 & a7 & Ea & A).
  destruct W2 as (b0 & b1 & b2 & b3 & b4 & b5 & b6 & b7 & Eb & B).
  rewrite Ea in Eb. apply header_eq in Eb as [Eh Ed]; [| done].
  injection Eh as -> -> -> -> -> -> -> ->.
  destruct A as (A0 & A1 & A2 & A3 & A4 & A5).
  destruct B as (B0 & B1 & B2 & B3 & B4 & B5).
  destruct c1 as [o1 u1 v1 e1 p1 l1 d1], c2 as [o2 u2 v2 e2 p2 l2 d2].
  cbn [opcode unknown1 unknown2 is_end part_num datalen data] in *.
  assert (e1 = e2) by (destruct e1, e2; (done || lia)).
  f_equal; (congruence || lia).
Qed.

Lemma to_bytes_injective_witness :
  mkCorsairCommand 2 5 64 true 1 3 [x0a; x0b; x0c; x00]
  = mkCorsairCommand 2 5 64 true 1 3 [x0a; x0b; x0c; x00].
Proof.
  apply (to_bytes_injective _ _
           [x02; x05; x40; x01; x01; x00; x03; x00; x0a; x0b; x0c; x00]);
    reflexivity.
Defined.

(** X3.  For a packet size above 8, every packet of [make_commands] is
    its payload followed by zero bytes up to the capacity [S - 8]; the
    payload is exactly [datalen] bytes long and never empty. *)
Theorem make_commands_padding (P : bytes) (op max_len : Z) :
  8 < max_len ->
  exists l, make_commands P op max_len = Some l
    /\ Forall (fun c =>
         data c = payload_of c ++ zeros (max_len - 8 - datalen c)
         /\ len (payload_of c) = datalen c
         /\ 0 < datalen c) l.
Proof.
  intros Hgt. destruct (gen_run_enough op max_len P Hgt) as (l & Hrun & _).
  exists l. split; [done |].
  eapply Forall_impl; [exact (gen_run_yielded _ _ _ _ _ Hrun) |].
  intros c (b & bs & k & st' & Hnext). by apply (yielded_padding op max_len b bs k c st').
Qed.

Lemma make_commands_padding_witness :
  8 < 12 /\
  exists l, make_commands [x0a; x0b; x0c; x0d; x0e] 2 12 = Some l
    /\ Forall (fun c =>
         data c = payload_of c ++ zeros (12 - 8 - datalen c)
         /\ len (payload_of c) = datalen c
         /\ 0 < datalen c) l.
Proof.
  split; [lia |]. apply (make_commands_padding _ 2 12). lia.
Defined.

(** The [datalen] fields of a list of commands, added up. *)
Lemma payload_total (l : list CorsairCommand) :
  Forall (fun c => len (payload_of c) = datalen c) l ->
  len (flat_map payload_of l) = foldr (fun c acc => datalen c + acc) 0 l.
Proof.
  induction 1 as [| c l Hc _ IH]; [done |].
  simpl. rewrite len_app, IH, Hc. done.
Qed.

(** X4.  For a packet size above 8, the [datalen] fields of the packets
    add up to the length of the payload. *)
Theorem make_commands_total (P : bytes) (op max_len : Z) :
  8 < max_len ->
  exists l, make_commands P op max_len = Some l
    /\ foldr (fun c acc => datalen c + acc) 0 l = len P.
Proof.
  intros Hgt. destruct (gen_run_enough op max_len P Hgt) as (l & Hrun & Hcat & _).
  exists l. split; [done |]. rewrite <- payload_total; [by rewrite Hcat |].
  eapply Forall_impl; [exact (gen_run_yielded _ _ _ _ _ Hrun) |].
  intros c (b & bs & k & st' & Hnext).
  by destruct (yielded_padding op max_len b bs k c st' Hgt Hnext) as (_ & ? & _).
Qed.

Lemma make_commands_total_witness :
  8 < 12 /\
  exists l, make_commands [x0a; x0b; x0c; x0d; x0e] 2 12 = Some l
    /\ foldr (fun c acc => datalen c + acc) 0 l
       = len [x0a; x0b; x0c; x0d; x0e].
Proof.
  split; [lia |]. apply (make_commands_total _ 2 12). lia.
Defined.

(** X5.  For a packet size above 8: [is_start] holds for the first packet
    and for no other; the [size] of a packet (header plus [datalen]) is
    above the header size, never above the packet size, and equal to the
    packet size for every packet that is followed by another. *)
Theorem make_commands_start_size (P : bytes) (op max_len : Z) :
  8 < max_len ->
  exists l, make_commands P op max_len = Some l
    /\ forall i c, l !! i = Some c ->
         is_start c = bool_decide (i = 0%nat)
         /\ header_size c < command_size c <= max_len
         /\ ((S i < length l)%nat -> command_size c = max_len).
Proof.
  intros Hgt.
  destruct (gen_run_enough op max_len P Hgt) as (l & Hrun & _ & Hn & Hall).
  exists l. split; [done |]. intros i c Hi.
  destruct (Hall i c Hi) as (_ & _ & _ & Hpn & _ & Hdl & _).
  pose proof (lookup_lt_Some _ _ _ Hi) as Hlt.
  pose proof (ceil_div_bounds (len P) (max_len - 8) ltac:(lia)) as Hceil.
  rewrite <- Hn in Hceil. unfold len in Hceil at 1 3.
  unfold is_start, command_size, header_size, HEADER_SIZE.
  split_and!.
  - rewrite Hpn. case_bool_decide; [subst i; done | apply Z.eqb_neq; lia].
  - nia.
  - lia.
  - intros Hnext. nia.
Qed.

Lemma make_commands_start_size_witness :
  8 < 12 /\
  exists l, make_commands [x0a; x0b; x0c; x0d; x0e] 2 12 = Some l
    /\ forall i c, l !! i = Some c ->
         is_start c = bool_decide (i = 0%nat)
         /\ header_size c < command_size c <= 12
         /\ ((S i < length l)%nat -> command_size c = 12).
Proof.
  split; [lia |]. apply (make_commands_start_size _ 2 12). lia.
Defined.

Lemma gen_take_stuck_not_end (op max_len : Z) (n : nat) :
  max_len <= 8 -> forall st, g_data st <> [] ->
  Forall (fun c => is_end c = false) (gen_take op max_len n st).
Proof.
  intros Hle. induction n as [| n IH]; intros [d k] Hne; [constructor |].
  cbn [g_data] in Hne. destruct d as [| b bs]; [done |].
  destruct (next_command_stuck op max_len b bs k Hle) as (c & st' & Hn & Hne').
  cbn [gen_take]. rewrite Hn. constructor; [| by apply IH].
  unfold next_command in Hn. cbn [g_data g_part_num] in Hn.
  injection Hn as <- <-. cbn [is_end g_data] in *.
  by destruct (slice_from (b :: bs) (max_len - HEADER_SIZE)).
Qed.

(** X6.  With a packet size of 8 or less there is no room for payload,
    and [make_commands] on a non-empty payload never finishes: the
    generator yields a packet at every resumption, none of them marked
    [is_end]. *)
Theorem make_commands_small_size (P : bytes) (op max_len : Z) :
  max_len <= 8 -> P <> [] ->
  make_commands P op max_len = None
  /\ forall n,
       length (gen_take op max_len n (mkGen P 0)) = n
       /\ Forall (fun c => is_end c = false)
                 (gen_take op max_len n (mkGen P 0)).
Proof.
  intros Hle HP. split; [by apply gen_run_diverges |].
  intros n. split; [by apply gen_take_stuck | by apply gen_take_stuck_not_end].
Qed.

Lemma make_commands_small_size_witness :
  make_commands [x0a; x0b] 2 8 = None
  /\ forall n,
       length (gen_take 2 8 n (mkGen [x0a; x0b] 0)) = n
       /\ Forall (fun c => is_end c = false)
                 (gen_take 2 8 n (mkGen [x0a; x0b] 0)).
Proof. apply (make_commands_small_size [x0a; x0b] 2 8); [lia | done]. Defined.

(** ** [write_command] *)

(** The write loop against the drained generator: the accepted reports
    are a prefix of the serialized commands, complete exactly when the
    loop ran to the end. *)
Lemma write_loop_spec (hid : HidDevice) (op max_len : Z) (fuel : nat) :
  forall st l n, gen_run op max_len fuel st = Some l ->
  exists ws ok,
    write_loop hid op max_len fuel n st = Some (ws, ok)
    /\ Some <$> ws = take (length ws) (to_bytes <$> l)
    /\ (length ws <= length l)%nat
    /\ (ok = true <-> length ws = length l)
    /\ (ok = false ->
        exists c, l !! length ws = Some c
          /\ match to_bytes c with
             | None => True
             | Some report => hid (n + length ws)%nat report = false
             end)
    /\ forall i report, ws !! i = Some report -> hid (n + i)%nat report = true.
Proof.
  induction fuel as [| fuel IH]; intros st l n Hrun; [done |].
  simpl in Hrun. cbn [write_loop].
  destruct (next_command op max_len st) as [[c st'] |] eqn:Hnext.
  - destruct (gen_run op max_len fuel st') as [l' |] eqn:E; [| done].
    injection Hrun as <-.
    destruct (to_bytes c) as [report |] eqn:Hser.
    + destruct (hid n report) eqn:Hw.
      * destruct (IH st' l' (S n) E)
          as (ws & ok & Hloop & Hpre & Hlen & Hok & Hfail & Hacc).
        rewrite Hloop. exists (report :: ws), ok.
        rewrite !fmap_cons, Hser. cbn [mbind option_bind length take firstn].
        split_and!; [done | by rewrite Hpre | lia | | |].
        -- rewrite Hok. lia.
        -- intros Hf. destruct (Hfail Hf) as (c' & Hc' & Hm).
           exists c'. split; [done |].
           destruct (to_bytes c'); [| done].
           by replace (n + S (length ws))%nat with (S n + length ws)%nat by lia.
        -- intros [| i] report' Hi.
           ++ injection Hi as <-. by rewrite Nat.add_0_r.
           ++ replace (n + S i)%nat with (S n + i)%nat by lia. by apply Hacc.
      * exists [], false. cbn [length take firstn fmap list_fmap].
        split_and!; [done | done | lia | split; [done | lia] | | done].
        intros _. exists c. split; [done |]. by rewrite Hser, Nat.add_0_r.
    + exists [], false. cbn [length take firstn fmap list_fmap].
      split_and!; [done | done | lia | split; [done | lia] | | done].
      intros _. exists c. split; [done |]. by rewrite Hser.
  - injection Hrun as <-. exists [], true. by split_and!.
Qed.

(** The packets of [make_commands(data)] with the default opcode and
    size: those numbered below 65536 serialize to 1024 bytes, the others
    do not serialize. *)
Lemma default_packets (data : bytes) :
  exists l, make_commands data 2 1024 = Some l
    /\ len l = ceil_div (len data) 1016
    /\ forall i c, l !! i = Some c ->
         (Z.of_nat i < 65536 ->
          exists r, to_bytes c = Some r /\ len r = 1024)
         /\ (65536 <= Z.of_nat i -> to_bytes c = None).
Proof.
  destruct (gen_run_enough 2 1024 data ltac:(lia)) as (l & Hrun & _ & Hn & Hall).
  exists l. split_and!; [done | done |]. intros i c Hi.
  destruct (Hall i c Hi) as (Eop & Eu1 & Eu2 & Epn & Elen & Edl & _).
  pose proof (lookup_lt_Some _ _ _ Hi) as Hlt.
  pose proof (ceil_div_bounds (len data) (1024 - 8) ltac:(lia)) as Hceil.
  rewrite <- Hn in Hceil. unfold len in Hceil at 1 3.
  split.
  - intros Hi16.
    assert (Hpn : 0 <= part_num c < 65536) by lia.
    assert (Hdl : 0 <= datalen c < 65536) by lia.
    destruct (to_bytes_in_range c ltac:(lia) ltac:(lia) ltac:(lia) Hpn Hdl)
      as (r & Hr & Hl & _).
    exists r. split; [done | lia].
  - intros Hi16. destruct (to_bytes c) as [r |] eqn:Hr; [| done].
    apply to_bytes_inv in Hr. lia.
Qed.

Lemma all_some_prefix {A} (ws : list A) (xs : list (option A)) (n : nat) :
  Some <$> ws = take (length ws) xs ->
  (forall i, (n <= i)%nat -> (i < length xs)%nat -> xs !! i = Some None) ->
  (length ws <= length xs)%nat ->
  (length ws <= n)%nat.
Proof.
  intros Hpre Hnone Hlen.
  destruct (Nat.le_gt_cases (length ws) n) as [| Hgt]; [done |].
  assert (Hn : (Some <$> ws) !! n = Some None).
  { rewrite Hpre, lookup_take_lt by lia. apply Hnone; lia. }
  rewrite list_lookup_fmap in Hn.
  destruct (lookup_lt_is_Some_2 ws n Hgt) as [w Hw]. by rewrite Hw in Hn.
Qed.

(** X7.  [write_command] sends the serialized packets of
    [make_commands(data)] in order, each accepted report being 1024 bytes,
    and stops at the first packet that fails to serialize or that the
    device rejects: the accepted reports are a prefix of the packet
    sequence, every one of them accepted at its position; the prefix is
    complete exactly when no error is logged; and when an error is logged,
    the packet that follows the prefix exists and is the one that failed,
    either having no serialization or being rejected by the device at
    that position. *)
Theorem write_command_prefix (hid : HidDevice) (data : bytes) :
  exists ws ok l,
    write_command hid data = Some (ws, ok)
    /\ make_commands data 2 1024 = Some l
    /\ Some <$> ws = take (length ws) (to_bytes <$> l)
    /\ (ok = true <-> length ws = length l)
    /\ (ok = false ->
        exists c, l !! length ws = Some c
          /\ (to_bytes c = None
              \/ exists report, to_bytes c = Some report
                   /\ hid (length ws) report = false))
    /\ Forall (fun report => len report = 1024) ws
    /\ forall i report, ws !! i = Some report -> hid i report = true.
Proof.
  destruct (default_packets data) as (l & Hrun & _ & Hall).
  destruct (write_loop_spec hid 2 1024 _ _ l 0%nat Hrun)
    as (ws & ok & Hloop & Hpre & Hlen & Hok & Hfail & Hacc).
  exists ws, ok, l. split_and!; try done.
  - intros Hf. destruct (Hfail Hf) as (c & Hc & Hm). exists c.
    split; [done |]. destruct (to_bytes c) as [report |]; [| by left].
    right. by exists report.
  - apply Forall_lookup_2. intros i report Hi.
    pose proof (lookup_lt_Some _ _ _ Hi) as Hlt.
    assert (Hsome : (Some <$> ws) !! i = Some (Some report))
      by (by rewrite list_lookup_fmap, Hi).
    rewrite Hpre, lookup_take_lt, list_lookup_fmap in Hsome by lia.
    destruct (l !! i) as [c |] eqn:Hc; [| done].
    injection Hsome as Hser.
    destruct (Hall i c Hc) as [Hin Hout].
    destruct (Z.lt_ge_cases (Z.of_nat i) 65536) as [Hlo | Hhi].
    + destruct (Hin Hlo) as (r & Hr & Hl). congruence.
    + rewrite (Hout Hhi) in Hser. done.
Qed.

(** X8.  On a device that accepts every report, a payload of at most
    [65536 * 1016] bytes is sent whole: [write_command] writes
    [ceil(len(data) / 1016)] reports, the serializations of all packets in
    order, and logs no error.  An empty payload writes nothing. *)
Theorem write_command_complete (hid : HidDevice) (data : bytes) :
  (forall n report, hid n report = true) ->
  len data <= 65536 * 1016 ->
  exists ws l,
    write_command hid data = Some (ws, true)
    /\ make_commands data 2 1024 = Some l
    /\ Some <$> ws = to_bytes <$> l
    /\ len ws = ceil_div (len data) 1016.
Proof.
  intros Hhid Hdata.
  destruct (default_packets data) as (l & Hrun & Hn & Hall).
  destruct (write_loop_spec hid 2 1024 _ _ l 0%nat Hrun)
    as (ws & ok & Hloop & Hpre & Hlen & Hok & Hfail & _).
  pose proof (ceil_div_bounds (len data) 1016 ltac:(lia)) as Hceil.
  rewrite <- Hn in Hceil. unfold len in Hceil at 1 3.
  destruct ok.
  - exists ws, l. pose proof (proj1 Hok eq_refl) as Heq.
    split_and!; [done | done | | unfold len in *; lia].
    rewrite Hpre, Heq. apply take_ge. by rewrite length_fmap.
  - destruct (Hfail eq_refl) as (c & Hc & Hm).
    pose proof (lookup_lt_Some _ _ _ Hc) as Hlt.
    destruct (Hall _ c Hc) as [Hin _].
    destruct Hin as (r & Hr & _); [lia |].
    rewrite Hr, Hhid in Hm. done.
Qed.

Lemma write_command_complete_witness :
  exists ws l,
    write_command (fun _ _ => true) [x0a; x0b; x0c] = Some (ws, true)
    /\ make_commands [x0a; x0b; x0c] 2 1024 = Some l
    /\ Some <$> ws = to_bytes <$> l
    /\ len ws = ceil_div (len [x0a; x0b; x0c]) 1016.
Proof.
  apply (write_command_complete (fun _ _ => true) [x0a; x0b; x0c]);
    [done | unfold len; simpl; lia].
Defined.

(** X9.  A payload of more than [65536 * 1016] bytes cannot be sent
    whole even on a device that accepts every report: the part number of
    the 65537th packet does not fit 16 bits, so [write_command] writes
    exactly 65536 reports, the serializations of the first 65536 packets
    in order, and then logs the [to_bytes] error. *)
Theorem write_command_overflow (hid : HidDevice) (data : bytes) :
  (forall n report, hid n report = true) ->
  65536 * 1016 < len data ->
  exists ws l,
    write_command hid data = Some (ws, false) /\ len ws = 65536
    /\ make_commands data 2 1024 = Some l
    /\ Some <$> ws = take (length ws) (to_bytes <$> l).
Proof.
  intros Hhid Hdata.
  destruct (default_packets data) as (l & Hrun & Hn & Hall).
  destruct (write_loop_spec hid 2 1024 _ _ l 0%nat Hrun)
    as (ws & ok & Hloop & Hpre & Hlen & Hok & Hfail & _).
  pose proof (ceil_div_bounds (len data) 1016 ltac:(lia)) as Hceil.
  rewrite <- Hn in Hceil. unfold len in Hceil, Hdata.
  assert (Hmany : 65536 < Z.of_nat (length l)) by lia.
  assert (Hle : (length ws <= Z.to_nat 65536)%nat).
  { apply (all_some_prefix ws (to_bytes <$> l)); [done | | by rewrite length_fmap].
    intros i Hi Hlt. rewrite length_fmap in Hlt.
    destruct (lookup_lt_is_Some_2 l i Hlt) as [c Hc].
    rewrite list_lookup_fmap, Hc. simpl. f_equal.
    apply (Hall i c Hc). lia. }
  destruct ok; [pose proof (proj1 Hok eq_refl); lia |].
  exists ws, l. split_and!; [done | | done | done].
  destruct (Hfail eq_refl) as (c & Hc & Hm).
  destruct (Hall _ c Hc) as [Hin _].
  destruct (Z.lt_ge_cases (Z.of_nat (length ws)) 65536) as [Hlo | Hhi];
    [| unfold len; lia].
  destruct (Hin Hlo) as (r & Hr & _). rewrite Hr, Hhid in Hm. done.
Qed.

Lemma write_command_overflow_witness :
  exists ws l,
    write_command (fun _ _ => true)
                  (replicate (Z.to_nat (65536 * 1016 + 1)) x41)
    = Some (ws, false)
    /\ len ws = 65536
    /\ make_commands (replicate (Z.to_nat (65536 * 1016 + 1)) x41) 2 1024
       = Some l
    /\ Some <$> ws = take (length ws) (to_bytes <$> l).
Proof.
  apply write_command_overflow; [done |].
  unfold len. rewrite length_replicate. lia.
Defined.

Lemma write_command_prefix_example :
  write_command (fun n _ => Nat.eqb n 0) (replicate 3000 x41)
  = option_map (fun l => (take 1 (omap to_bytes l), false))
               (make_commands (replicate 3000 x41) 2 1024).
Proof. by vm_compute. Qed.

(** * Further properties of the LED controller *)

(** X10.  Construction of the controller.  If the first connection
    attempt succeeds there is no retry, no sleep and no report: the
    controller is enabled on that session with 24 black LEDs, the start
    of its timer scheduled (the timer itself not yet created) and its
    exit hook registered.  If the first fails and the
    second succeeds the controller is the same, after 5 seconds of sleep.
    If both fail, the code has slept 10 seconds in all (it sleeps after
    the second failure too) before the warning box, which is the last
    thing it does. *)
Theorem init_outcomes (backend : Backend) :
  (forall c, backend 0%nat = Some c ->
     init backend
     = (mkController true (Some c) (replicate 24 black) true true None,
        [EvConnect]))
  /\ (forall c, backend 0%nat = None -> backend 1%nat = Some c ->
        fst (init backend)
        = mkController true (Some c) (replicate 24 black) true true None
        /\ sleep_total (snd (init backend)) = 5000
        /\ EvWarningBox ∉ snd (init backend))
  /\ (backend 0%nat = None -> backend 1%nat = None ->
        sleep_total (snd (init backend)) = 10000
        /\ last (snd (init backend)) = Some EvWarningBox
        /\ length (filter (fun e => is_warning_box e = true)
                          (snd (init backend))) = 1%nat).
Proof.
  split_and!.
  - intros c H0. unfold init, connect_to_openrgb. cbn [seq connect_attempts].
    by rewrite H0.
  - intros c H0 H1. unfold init. rewrite (connect_first_fails backend H0), H1.
    cbn. split_and!; [done | done |].
    intros Hin. repeat (apply elem_of_cons in Hin as [Hin | Hin]; [done |]).
    by apply elem_of_nil in Hin.
  - intros H0 H1. unfold init. rewrite (connect_first_fails backend H0), H1.
    by cbn.
Qed.

Lemma init_outcomes_witness :
  init live_backend
  = (mkController true (Some pump_client) (replicate 24 black) true true None,
     [EvConnect])
  /\ sleep_total (snd (init dead_backend)) = 10000
  /\ last (snd (init dead_backend)) = Some EvWarningBox.
Proof.
  pose proof (init_outcomes live_backend) as (Hlive & _ & _).
  pose proof (init_outcomes dead_backend) as (_ & _ & Hdead).
  destruct (Hdead eq_refl eq_refl) as (Hs & Hl & _).
  split_and!; [by apply Hlive | done | done].
Defined.

(** ** Pushing colours *)

Lemma set_leds_full (d nleds : nat) (colors : list RGBColor) :
  forall i0, (i0 + length colors <= nleds)%nat ->
  set_leds d nleds i0 colors
  = (imap (fun i c => EvSetColor d (i0 + i) c) colors, true).
Proof.
  induction colors as [| c colors IH]; intros i0 Hlen; [done |].
  simpl in Hlen. cbn [set_leds].
  destruct (Nat.ltb_spec i0 nleds); [| lia].
  rewrite IH by lia. cbn [imap]. rewrite Nat.add_0_r. do 2 f_equal.
  apply imap_ext. intros i c' _. simpl. f_equal. lia.
Qed.

Lemma set_leds_short (d nleds : nat) (colors : list RGBColor) :
  forall i0, (i0 <= nleds < i0 + length colors)%nat ->
  set_leds d nleds i0 colors
  = (imap (fun i c => EvSetColor d (i0 + i) c) (take (nleds - i0) colors),
     false).
Proof.
  induction colors as [| c colors IH]; intros i0 Hlen; [simpl in Hlen; lia |].
  simpl in Hlen. cbn [set_leds].
  destruct (Nat.ltb_spec i0 nleds) as [Hlt | Hge].
  - rewrite IH by lia.
    replace (nleds - i0)%nat with (S (nleds - S i0)) by lia.
    cbn [take firstn imap]. rewrite Nat.add_0_r. do 2 f_equal.
    apply imap_ext. intros i c' _. simpl. f_equal. lia.
  - by replace (nleds - i0)%nat with 0%nat by lia.
Qed.

Lemma push_trace_cons (d : nat) (dev : Device) (devs : list Device)
    (colors : list RGBColor) :
  push_trace d (dev :: devs) colors
  = (if is_commander dev then imap (EvSetColor d) colors else [])
      ++ push_trace (S d) devs colors.
Proof.
  unfold push_trace. cbn [imap mjoin list_join]. f_equal.
  - rewrite Nat.add_0_r. done.
  - f_equal. apply imap_ext. intros j dev' _. simpl.
    destruct (is_commander dev'); [| done].
    apply imap_ext. intros i c _. simpl. f_equal. lia.
Qed.

Lemma set_devices_full (colors : list RGBColor) (devs : list Device) :
  forall d,
  Forall (fun dev => is_commander dev = true ->
            exists z, pump_zone_of dev = Some z
                      /\ (length colors <= zone_leds z)%nat) devs ->
  set_devices d devs colors = (push_trace d devs colors, true).
Proof.
  induction devs as [| dev devs IH]; intros d Hall; [done |].
  apply Forall_cons in Hall as [Hdev Hall].
  cbn [set_devices]. rewrite push_trace_cons.
  destruct (is_commander dev) eqn:Hc.
  - destruct (Hdev eq_refl) as (z & Hz & Hn). unfold pump_zone_of in Hz.
    rewrite Hz, set_leds_full by lia. rewrite IH by done. done.
  - by rewrite IH.
Qed.

Lemma push_trace_no_commander (d : nat) (devs : list Device)
    (colors : list RGBColor) :
  Forall (fun dev => is_commander dev = false) devs ->
  push_trace d devs colors = [].
Proof.
  revert d. induction devs as [| dev devs IH]; intros d Hall; [done |].
  apply Forall_cons in Hall as [Hdev Hall].
  by rewrite push_trace_cons, Hdev, IH.
Qed.

(** X11.  A lookup miss is a silent no-op: on an enabled controller
    whose session has no device named "Corsair Commander Core",
    [set_colors] writes nothing and logs nothing. *)
Theorem set_colors_no_device (st : LEDController) (cl : OpenRGBClient) :
  enabled st = true -> client st = Some cl ->
  Forall (fun dev => is_commander dev = false) (ee_devices cl) ->
  set_colors st = [].
Proof.
  intros Hen Hcl Hnone. unfold set_colors. rewrite Hen, Hcl. cbn [negb].
  rewrite set_devices_full.
  - by apply push_trace_no_commander.
  - eapply Forall_impl; [exact Hnone |]. intros dev Hf Ht. congruence.
Qed.

Lemma set_colors_no_device_witness :
  set_colors (mkController true
                (Some (mkClient [mkDevice "Keyboard" [mkZone "Pump" 24]]))
                (replicate 24 black) true true None) = [].
Proof.
  apply (set_colors_no_device _
           (mkClient [mkDevice "Keyboard" [mkZone "Pump" 24]]));
    [done | done |].
  repeat constructor.
Defined.

(** X12.  A push that meets no obstacle: on an enabled controller whose
    Commander Core devices each have a zone named "Pump" with at least as
    many LEDs as there are persisted colours, [set_colors] writes, for
    each such device in session order, LED [i] with colour [i] for every
    persisted colour, in index order, and nothing else; other devices are
    not touched and no error is logged. *)
Theorem set_colors_writes (st : LEDController) (cl : OpenRGBClient) :
  enabled st = true -> client st = Some cl ->
  Forall (fun dev => is_commander dev = true ->
            exists z, pump_zone_of dev = Some z
                      /\ (length (last_rgb_colors st) <= zone_leds z)%nat)
         (ee_devices cl) ->
  set_colors st = push_trace 0 (ee_devices cl) (last_rgb_colors st).
Proof.
  intros Hen Hcl Hall. unfold set_colors. rewrite Hen, Hcl. cbn [negb].
  by rewrite set_devices_full.
Qed.

Lemma set_colors_writes_witness :
  set_colors (fst (init live_backend))
  = push_trace 0 (ee_devices pump_client) (replicate 24 black).
Proof.
  apply (set_colors_writes (fst (init live_backend)) pump_client);
    [done | done |].
  constructor; [| constructor].
  intros _. exists (mkZone "Pump" 24). split; [done | simpl; lia].
Defined.

Lemma set_devices_skip (colors : list RGBColor) (pre devs : list Device) :
  forall d, Forall (fun dev => is_commander dev = false) pre ->
  set_devices d (pre ++ devs) colors
  = set_devices (d + length pre) devs colors.
Proof.
  induction pre as [| dev pre IH]; intros d Hpre.
  { simpl. by rewrite Nat.add_0_r. }
  apply Forall_cons in Hpre as [Hdev Hpre].
  cbn [app set_devices]. rewrite Hdev, IH by done.
  f_equal. simpl. lia.
Qed.

(** X13.  An exception ends the push.  When the first Commander Core
    device of the session has no zone named "Pump", [set_colors] writes
    nothing and logs the error; when its pump zone has fewer LEDs than
    there are persisted colours, [set_colors] writes the LEDs the zone
    has, in order, and then logs the error.  In both cases the devices
    that follow are not visited. *)
Theorem set_colors_abort (st : LEDController) (cl : OpenRGBClient)
    (pre rest : list Device) (dev : Device) :
  enabled st = true -> client st = Some cl ->
  ee_devices cl = pre ++ dev :: rest ->
  Forall (fun dev' => is_commander dev' = false) pre ->
  is_commander dev = true ->
  (pump_zone_of dev = None -> set_colors st = [EvLogError])
  /\ (forall z, pump_zone_of dev = Some z ->
        (zone_leds z < length (last_rgb_colors st))%nat ->
        set_colors st
        = imap (EvSetColor (length pre))
               (take (zone_leds z) (last_rgb_colors st)) ++ [EvLogError]).
Proof.
  intros Hen Hcl Hdevs Hpre Hdev. unfold set_colors.
  rewrite Hen, Hcl, Hdevs. cbn [negb].
  rewrite set_devices_skip by done. cbn [set_devices Nat.add].
  rewrite Hdev. unfold pump_zone_of. split.
  - by intros ->.
  - intros z -> Hshort. rewrite set_leds_short by lia.
    rewrite Nat.sub_0_r. done.
Qed.

Lemma set_colors_abort_witness :
  let cl := mkClient [mkDevice "Keyboard" [];
                      mkDevice "Corsair Commander Core" [mkZone "Pump" 2];
                      mkDevice "Corsair Commander Core" [mkZone "Pump" 24]] in
  let st := mkController true (Some cl) (replicate 24 black) true true None in
  set_colors st
  = [EvSetColor 1 0 black; EvSetColor 1 1 black; EvLogError].
Proof.
  cbn zeta.
  pose proof (set_colors_abort
    (mkController true
       (Some (mkClient [mkDevice "Keyboard" [];
                        mkDevice "Corsair Commander Core" [mkZone "Pump" 2];
                        mkDevice "Corsair Commander Core" [mkZone "Pump" 24]]))
       (replicate 24 black) true true None)
    _ [mkDevice "Keyboard" []]
    [mkDevice "Corsair Commander Core" [mkZone "Pump" 24]]
    (mkDevice "Corsair Commander Core" [mkZone "Pump" 2])
    eq_refl eq_refl eq_refl ltac:(repeat constructor) eq_refl) as [_ Hshort].
  apply (Hshort (mkZone "Pump" 2)); [done | simpl; lia].
Defined.

Lemma set_leds_targets (d nleds : nat) (colors : list RGBColor) :
  forall i0 e, e ∈ (set_leds d nleds i0 colors).1 ->
  exists i c, e = EvSetColor d i c /\ (i0 <= i < nleds)%nat
              /\ colors !! (i - i0)%nat = Some c.
Proof.
  induction colors as [| c colors IH]; intros i0 e He.
  { by apply elem_of_nil in He. }
  cbn [set_leds] in He. destruct (Nat.ltb_spec i0 nleds) as [Hlt | Hge].
  - destruct (set_leds d nleds (S i0) colors) as [tr ok] eqn:E.
    cbn [fst] in He. apply elem_of_cons in He as [-> | He].
    + exists i0, c. rewrite Nat.sub_diag. split_and!; (done || lia).
    + destruct (IH (S i0) e) as (i & c' & -> & Hi & Hc); [by rewrite E |].
      exists i, c'. split_and!; [done | lia | lia |].
      replace (i - i0)%nat with (S (i - S i0)) by lia. done.
  - by apply elem_of_nil in He.
Qed.

Lemma set_devices_targets (colors : list RGBColor) (devs : list Device) :
  forall d0 e, e ∈ (set_devices d0 devs colors).1 ->
  exists d i c dev,
    e = EvSetColor d i c /\ (d0 <= d)%nat
    /\ devs !! (d - d0)%nat = Some dev /\ is_commander dev = true
    /\ (exists z, pump_zone_of dev = Some z /\ (i < zone_leds z)%nat)
    /\ colors !! i = Some c.
Proof.
  induction devs as [| dev devs IH]; intros d0 e He.
  { by apply elem_of_nil in He. }
  assert (Hrest : e ∈ (set_devices (S d0) devs colors).1 ->
    exists d i c dev',
      e = EvSetColor d i c /\ (d0 <= d)%nat
      /\ (dev :: devs) !! (d - d0)%nat = Some dev' /\ is_commander dev' = true
      /\ (exists z, pump_zone_of dev' = Some z /\ (i < zone_leds z)%nat)
      /\ colors !! i = Some c).
  { intros He'.
    destruct (IH (S d0) e He')
      as (d & i & c & dev' & -> & Hd & Hl & Hcm & Hz & Hcol).
    exists d, i, c, dev'. split_and!; [done | lia | | done | done | done].
    replace (d - d0)%nat with (S (d - S d0)) by lia. done. }
  cbn [set_devices] in He. destruct (is_commander dev) eqn:Hc; [| by apply Hrest].
  destruct (find _ (zones dev)) as [z |] eqn:Hz;
    [| by apply elem_of_nil in He].
  destruct (set_leds d0 (zone_leds z) 0 colors) as [tr ok] eqn:Eleds.
  assert (Hhere : e ∈ tr ->
    exists d i c dev',
      e = EvSetColor d i c /\ (d0 <= d)%nat
      /\ (dev :: devs) !! (d - d0)%nat = Some dev' /\ is_commander dev' = true
      /\ (exists z, pump_zone_of dev' = Some z /\ (i < zone_leds z)%nat)
      /\ colors !! i = Some c).
  { intros Hin.
    destruct (set_leds_targets d0 (zone_leds z) colors 0 e) as (i & c & -> & Hi & Hcol);
      [by rewrite Eleds |].
    exists d0, i, c, dev. rewrite Nat.sub_diag, Nat.sub_0_r in *.
    split_and!; try done. exists z. split; [done | lia]. }
  destruct ok.
  - destruct (set_devices (S d0) devs colors) as [tr' ok'] eqn:Erest.
    cbn [fst] in He. apply elem_of_app in He as [He | He]; [by apply Hhere |].
    by apply Hrest.
  - by apply Hhere.
Qed.

(** X14.  Whatever the session holds, [set_colors] never touches
    anything but pump LEDs of Commander Core devices: every event of a
    push is either the logged error or a [set_color] on an LED that
    exists in the "Pump" zone of a device named "Corsair Commander Core",
    with the persisted colour of the same index. *)
Theorem set_colors_targets (st : LEDController) (e : event) :
  e ∈ set_colors st ->
  e = EvLogError
  \/ exists d i c cl dev z,
       e = EvSetColor d i c
       /\ client st = Some cl /\ ee_devices cl !! d = Some dev
       /\ is_commander dev = true
       /\ pump_zone_of dev = Some z /\ (i < zone_leds z)%nat
       /\ last_rgb_colors st !! i = Some c.
Proof.
  unfold set_colors. destruct (enabled st); cbn [negb];
    [| intros He; by apply elem_of_nil in He].
  destruct (client st) as [cl |].
  2:{ intros He. apply elem_of_cons in He as [-> | He]; [by left |].
      by apply elem_of_nil in He. }
  destruct (set_devices 0 (ee_devices cl) (last_rgb_colors st))
    as [tr ok] eqn:E.
  assert (Htr : e ∈ tr ->
    exists d i c cl' dev z,
       e = EvSetColor d i c
       /\ Some cl = Some cl' /\ ee_devices cl' !! d = Some dev
       /\ is_commander dev = true
       /\ pump_zone_of dev = Some z /\ (i < zone_leds z)%nat
       /\ last_rgb_colors st !! i = Some c).
  { intros He.
    destruct (set_devices_targets (last_rgb_colors st) (ee_devices cl) 0 e)
      as (d & i & c & dev & -> & _ & Hd & Hc & (z & Hz & Hi) & Hcol);
      [by rewrite E |].
    rewrite Nat.sub_0_r in Hd. by exists d, i, c, cl, dev, z. }
  destruct ok; intros He.
  - right. by apply Htr.
  - apply elem_of_app in He as [He | He]; [right; by apply Htr |].
    apply elem_of_cons in He as [-> | He]; [by left |].
    by apply elem_of_nil in He.
Qed.

Lemma set_colors_targets_witness :
  EvSetColor 0 5 black = EvLogError
  \/ exists d i c cl dev z,
       EvSetColor 0 5 black = EvSetColor d i c
       /\ client (fst (init live_backend)) = Some cl
       /\ ee_devices cl !! d = Some dev
       /\ is_commander dev = true
       /\ pump_zone_of dev = Some z /\ (i < zone_leds z)%nat
       /\ last_rgb_colors (fst (init live_backend)) !! i = Some c.
Proof.
  apply (set_colors_targets (fst (init live_backend)) (EvSetColor 0 5 black)).
  apply list_elem_of_lookup. by exists 5%nat.
Defined.

(** ** Shutdown and ticks *)

Lemma clear_devices_trace (devs : list Device) :
  forall d, clear_devices d devs
  = mjoin (imap (fun j dev =>
                   if is_commander dev then [EvClear (d + j)] else []) devs).
Proof.
  induction devs as [| dev devs IH]; intros d; [done |].
  cbn [clear_devices imap mjoin list_join]. rewrite Nat.add_0_r. f_equal.
  rewrite IH. f_equal. apply imap_ext. intros j dev' _. simpl.
  destruct (is_commander dev'); [| done]. do 2 f_equal. lia.
Qed.

Lemma turn_off_leds_trace (c : OpenRGBClient) :
  turn_off_leds c = EvSleep 100 :: clear_trace (ee_devices c).
Proof. unfold turn_off_leds. by rewrite clear_devices_trace. Qed.

Section Shutdown.
Context `{FloatModel} `{Libm} `{QColorApi}.

(** On a disabled controller nothing but the exit hook reaches the
    backend, and nothing enables it again or touches its colours. *)
Lemma step_stopped (st : LEDController) (a : action) :
  enabled st = false -> is_exit a = false ->
  snd (step st a) = []
  /\ enabled (fst (step st a)) = false
  /\ last_rgb_colors (fst (step st a)) = last_rgb_colors st.
Proof.
  intros Hen Ha. destruct a; [| | done |]; cbn [step].
  - unfold timer_tick, analyze_and_set_colors. by rewrite Hen.
  - unfold set_colors. by rewrite Hen.
  - by destruct (start_timer_scheduled st).
Qed.

Lemma run_stopped (acts : list action) :
  forall st, enabled st = false ->
  Forall (fun a => is_exit a = false) acts ->
  snd (run st acts) = []
  /\ enabled (fst (run st acts)) = false
  /\ last_rgb_colors (fst (run st acts)) = last_rgb_colors st.
Proof.
  induction acts as [| a acts IH]; intros st Hen Hacts; [done |].
  apply Forall_cons in Hacts as [Ha Hacts].
  destruct (step_stopped st a Hen Ha) as (Htr & Hen' & Hcol).
  cbn [run]. destruct (step st a) as [st1 tr1]. cbn [fst snd] in *.
  destruct (IH st1 Hen' Hacts) as (Htr2 & Hen2 & Hcol2).
  destruct (run st1 acts) as [st2 tr2]. cbn [fst snd] in *.
  subst tr1 tr2. split_and!; [done | done | congruence].
Qed.

(** X15.  [stop_led] disables the controller in every case, and no
    later tick, push or timer start reaches the backend or changes the
    persisted colours.  What else it does depends on whether
    [start_timer] has run.  If it has, the timer is stopped, the code
    sleeps 100 ms and then clears the devices named "Corsair Commander
    Core", each once, in session order, and does nothing more.  If it has
    not, reading [update_led_timer] raises: the exception leaves the
    method, nothing sleeps and no device is cleared.  So an exit hook that
    runs before the single shot of the constructor has fired leaves the
    LEDs as they are, while one that runs after it turns them off. *)
Theorem stop_led_final (st : LEDController) :
  enabled (fst (stop_led st)) = false
  /\ (update_led_timer st = None ->
      snd (stop_led st) = [EvUncaught]
      /\ update_led_timer (fst (stop_led st)) = None)
  /\ (forall cl, is_Some (update_led_timer st) -> client st = Some cl ->
      snd (stop_led st) = EvSleep 100 :: clear_trace (ee_devices cl)
      /\ update_led_timer (fst (stop_led st)) = Some false)
  /\ (forall acts, Forall (fun a => is_exit a = false) acts ->
      snd (run (fst (stop_led st)) acts) = []
      /\ enabled (fst (run (fst (stop_led st)) acts)) = false
      /\ last_rgb_colors (fst (run (fst (stop_led st)) acts))
         = last_rgb_colors st)
  /\ (forall backend cl, fst (connect_to_openrgb backend) = Some cl ->
      snd (run (fst (init backend)) [ActExit]) = [EvUncaught]
      /\ snd (run (fst (init backend)) [ActStartTimer; ActExit])
         = EvSleep 100 :: clear_trace (ee_devices cl)).
Proof.
  assert (Hen : enabled (fst (stop_led st)) = false).
  { unfold stop_led. by destruct (update_led_timer st), (client st). }
  split_and!; [done | | | |].
  - intros Hnone. unfold stop_led. by rewrite Hnone.
  - intros cl [b Hb] Hcl. unfold stop_led. rewrite Hb, Hcl. cbn [fst snd].
    by rewrite turn_off_leds_trace.
  - intros acts Hacts.
    destruct (run_stopped acts (fst (stop_led st)) Hen Hacts)
      as (Htr & Hen' & Hcol).
    split_and!; [done | done |]. rewrite Hcol. unfold stop_led.
    by destruct (update_led_timer st), (client st).
  - intros backend cl Hcl. unfold init.
    destruct (connect_to_openrgb backend) as [r tr]. cbn [fst] in Hcl.
    subst r. rewrite <- turn_off_leds_trace. split; [reflexivity |].
    cbn. by rewrite app_nil_r.
Qed.
End Shutdown.

Lemma stop_led_final_witness :
  snd (@run binary64 table_libm int_qcolor
         (fst (init live_backend)) [ActExit]) = [EvUncaught]
  /\ snd (@run binary64 table_libm int_qcolor
            (fst (init live_backend)) [ActStartTimer; ActExit])
     = [EvSleep 100; EvClear 0].
Proof.
  destruct (@stop_led_final binary64 table_libm int_qcolor
              (fst (init live_backend))) as (_ & _ & _ & _ & Hexit).
  exact (Hexit live_backend pump_client eq_refl).
Defined.

Section TickPush.
Context `{FloatModel} `{Libm} `{QColorApi}.

(** X16.  What a tick pushes is what it has just stored: on an enabled
    controller holding 24 colours, [analyze_and_set_colors] always
    completes its loop, and the events of the tick are those of
    [set_colors] on the updated controller. *)
Theorem tick_pushes_stored (st : LEDController) (image : QImage)
    (width height : Z) (alpha sat : Q) :
  enabled st = true -> length (last_rgb_colors st) = 24%nat ->
  snd (analyze_and_set_colors st image width height alpha sat)
  = set_colors (fst (analyze_and_set_colors st image width height alpha sat)).
Proof.
  intros Hen Hlen. unfold analyze_and_set_colors. rewrite Hen. cbn [negb].
  destruct (smooth_loop_spec (sample_led image width height sat) alpha 24 0
              (last_rgb_colors st) ltac:(lia)) as (colors' & Hrun & _).
  by rewrite Hrun.
Qed.
End TickPush.

Lemma tick_pushes_stored_witness :
  snd (@analyze_and_set_colors binary64 table_libm int_qcolor
         (fst (init live_backend)) white_frame 479 479 (1 # 4) (5 # 4))
  = set_colors
      (fst (@analyze_and_set_colors binary64 table_libm int_qcolor
              (fst (init live_backend)) white_frame 479 479 (1 # 4) (5 # 4))).
Proof.
  apply (@tick_pushes_stored binary64 table_libm int_qcolor); reflexivity.
Defined.

(** * Further properties of the smoothing *)

Section SmoothingSteps.
Context `{FloatLaws}.

#[local] Existing Instance fl_Proper.

(** With factor 1 the previous value is forgotten, with factor 0 the
    sample is. *)
Lemma smooth_channel_one (p s : Z) :
  channel_ok p -> channel_ok s -> smooth_channel 1 p s = s.
Proof.
  unfold channel_ok. intros Hp Hs. unfold smooth_channel, fadd, fmul, fsub.
  assert (E1 : (fl (1 - 1) == 0)%Q)
    by (rewrite (fl_exact _ 0); [reflexivity | reflexivity | by vm_compute]).
  assert (E2 : (fl (inject_Z p * 0) == 0)%Q).
  { rewrite (fl_exact _ 0); [| | by vm_compute].
    - unfold Qeq. simpl. lia.
    - unfold Qeq. simpl. lia. }
  assert (E3 : (fl (inject_Z s * 1) == inject_Z s)%Q).
  { rewrite (fl_exact _ (4 * s)); [| | lia].
    - unfold Qeq. simpl. lia.
    - unfold Qeq. simpl. lia. }
  transitivity (4 * s / 4); [| rewrite Z.mul_comm; apply Z.div_mul; lia].
  apply py_int_quarter; [| lia].
  rewrite E1, E2, E3.
  rewrite (fl_exact _ (4 * s)); [| | lia].
  - unfold Qeq. simpl. lia.
  - unfold Qeq. simpl. lia.
Qed.

Lemma smooth_channel_zero (p s : Z) :
  channel_ok p -> channel_ok s -> smooth_channel 0 p s = p.
Proof.
  unfold channel_ok. intros Hp Hs. unfold smooth_channel, fadd, fmul, fsub.
  assert (E1 : (fl (1 - 0) == 1)%Q)
    by (rewrite (fl_exact _ 4); [reflexivity | reflexivity | by vm_compute]).
  assert (E2 : (fl (inject_Z p * 1) == inject_Z p)%Q).
  { rewrite (fl_exact _ (4 * p)); [| | lia].
    - unfold Qeq. simpl. lia.
    - unfold Qeq. simpl. lia. }
  assert (E3 : (fl (inject_Z s * 0) == 0)%Q).
  { rewrite (fl_exact _ 0); [| | by vm_compute].
    - unfold Qeq. simpl. lia.
    - unfold Qeq. simpl. lia. }
  transitivity (4 * p / 4); [| rewrite Z.mul_comm; apply Z.div_mul; lia].
  apply py_int_quarter; [| lia].
  rewrite E1, E2, E3.
  rewrite (fl_exact _ (4 * p)); [| | lia].
  - unfold Qeq. simpl. lia.
  - unfold Qeq. simpl. lia.
Qed.

(** X18.  With the default factor 0.25 one smoothing step moves a
    channel by a quarter of its distance to the sample, rounded down:
    [new = prev + floor((sample - prev) / 4)].  So the new value lies
    between the previous value and the sample; a falling channel always
    gets closer, while a rising channel stops moving once it is within 3
    of the sample. *)
Theorem smooth_channel_step (p s : Z) :
  channel_ok p -> channel_ok s ->
  smooth_channel DEFAULT_SMOOTHING p s = p + (s - p) / 4
  /\ Z.min p s <= smooth_channel DEFAULT_SMOOTHING p s <= Z.max p s
  /\ (smooth_channel DEFAULT_SMOOTHING p s = p <-> 0 <= s - p <= 3)
  /\ (s < p -> smooth_channel DEFAULT_SMOOTHING p s < p).
Proof.
  intros Hp Hs. rewrite (smooth_channel_default p s Hp Hs).
  assert (E : (3 * p + s) / 4 = p + (s - p) / 4).
  { replace (3 * p + s) with (s - p + p * 4) by lia.
    rewrite Z.div_add by lia. lia. }
  rewrite E.
  pose proof (Z.div_mod (s - p) 4 ltac:(lia)).
  pose proof (Z.mod_pos_bound (s - p) 4 ltac:(lia)).
  split_and!; lia.
Qed.
End SmoothingSteps.

Lemma smooth_channel_step_witness :
  @smooth_channel binary64 DEFAULT_SMOOTHING 252 255 = 252 + (255 - 252) / 4
  /\ Z.min 252 255 <= @smooth_channel binary64 DEFAULT_SMOOTHING 252 255
     <= Z.max 252 255
  /\ (@smooth_channel binary64 DEFAULT_SMOOTHING 252 255 = 252
      <-> 0 <= 255 - 252 <= 3)
  /\ (255 < 252 -> @smooth_channel binary64 DEFAULT_SMOOTHING 252 255 < 252).
Proof.
  apply (@smooth_channel_step binary64 binary64_laws 252 255);
    unfold channel_ok; lia.
Defined.

Section TickProperties.
Context `{FloatLaws} `{Libm} `{QColorApi}.

Lemma smooth_one (last c : RGBColor) :
  rgb_ok last -> rgb_ok c -> smooth 1 last c = c.
Proof.
  intros (? & ? & ?) (? & ? & ?). destruct c as [r g b]. unfold smooth.
  cbn [red green blue] in *. by rewrite !smooth_channel_one.
Qed.

Lemma smooth_zero (last c : RGBColor) :
  rgb_ok last -> rgb_ok c -> smooth 0 last c = last.
Proof.
  intros (? & ? & ?) (? & ? & ?). destruct last as [r g b]. unfold smooth.
  cbn [red green blue] in *. by rewrite !smooth_channel_zero.
Qed.

(** X17.  The two extreme factors.  With [smoothing_factor = 1] a tick
    stores the sampled colours themselves, whatever was stored before;
    with [smoothing_factor = 0] a tick leaves the stored colours as they
    are, whatever is sampled. *)
Theorem smoothing_extremes (st : LEDController) (image : QImage)
    (width height : Z) (sat : Q) :
  enabled st = true -> length (last_rgb_colors st) = 24%nat ->
  Forall rgb_ok (last_rgb_colors st) ->
  (forall i, (i < 24)%nat -> rgb_ok (sample_led image width height sat i)) ->
  last_rgb_colors (fst (analyze_and_set_colors st image width height 1 sat))
  = sample_led image width height sat <$> seq 0 24
  /\ last_rgb_colors (fst (analyze_and_set_colors st image width height 0 sat))
     = last_rgb_colors st.
Proof.
  intros Hen Hlen Hok Hsam. split.
  - destruct (analyze_colors st image width height 1 sat Hen Hlen)
      as (_ & Hlen' & Hcol).
    apply list_eq. intros i. destruct (Nat.lt_ge_cases i 24) as [Hi | Hi].
    + destruct (lookup_lt_is_Some_2 (last_rgb_colors st) i ltac:(lia))
        as [last Hlast].
      rewrite (Hcol i last Hi Hlast), list_lookup_fmap, lookup_seq_lt by done.
      simpl. f_equal. apply smooth_one; [| by apply Hsam].
      by apply (Forall_lookup_1 _ _ _ _ Hok Hlast).
    + rewrite !lookup_ge_None_2; [done | |].
      * rewrite length_fmap, length_seq. lia.
      * lia.
  - destruct (analyze_colors st image width height 0 sat Hen Hlen)
      as (_ & Hlen' & Hcol).
    apply list_eq. intros i. destruct (Nat.lt_ge_cases i 24) as [Hi | Hi].
    + destruct (lookup_lt_is_Some_2 (last_rgb_colors st) i ltac:(lia))
        as [last Hlast].
      rewrite (Hcol i last Hi Hlast), Hlast. f_equal.
      apply smooth_zero; [| by apply Hsam].
      by apply (Forall_lookup_1 _ _ _ _ Hok Hlast).
    + rewrite !lookup_ge_None_2; [done | lia | lia].
Qed.

Lemma smooth_trails (col c : RGBColor) :
  rgb_ok c -> trails col c -> trails (smooth DEFAULT_SMOOTHING col c) c.
Proof.
  unfold rgb_ok, channel_ok, trails, smooth. cbn [red green blue].
  intros (Hr & Hg & Hb) (Tr & Tg & Tb).
  rewrite !smooth_channel_default by (unfold channel_ok; lia).
  pose proof (Z.div_mod (3 * red col + red c) 4 ltac:(lia)).
  pose proof (Z.mod_pos_bound (3 * red col + red c) 4 ltac:(lia)).
  pose proof (Z.div_mod (3 * green col + green c) 4 ltac:(lia)).
  pose proof (Z.mod_pos_bound (3 * green col + green c) 4 ltac:(lia)).
  pose proof (Z.div_mod (3 * blue col + blue c) 4 ltac:(lia)).
  pose proof (Z.mod_pos_bound (3 * blue col + blue c) 4 ltac:(lia)).
  lia.
Qed.

(** X19.  Because the smoothing truncates, a rising colour never
    arrives.  Starting from the black seed, if every tick samples the
    same colour [c] for LED [i], then after any number of default ticks
    each channel of LED [i] is still at least 3 below that of [c] (or at
    0): on a steadily white frame the LEDs never exceed 252. *)
Theorem rising_never_arrives (backend : Backend) (frames : list QImage)
    (i : nat) (c : RGBColor) :
  enabled (fst (init backend)) = true ->
  (i < 24)%nat -> rgb_ok c ->
  (forall image, image ∈ frames ->
     sample_led image DEFAULT_WIDTH DEFAULT_HEIGHT DEFAULT_SATURATION i = c) ->
  exists col,
    last_rgb_colors
      (ticks (fst (init backend)) frames DEFAULT_WIDTH DEFAULT_HEIGHT
             DEFAULT_SMOOTHING DEFAULT_SATURATION) !! i = Some col
    /\ trails col c.
Proof.
  intros Hen Hi Hc Hsam.
  pose proof (init_enabled backend Hen) as Hseed.
  assert (Hinv : forall st,
    enabled st = true -> length (last_rgb_colors st) = 24%nat ->
    (exists col, last_rgb_colors st !! i = Some col /\ trails col c) ->
    exists col,
      last_rgb_colors
        (ticks st frames DEFAULT_WIDTH DEFAULT_HEIGHT
               DEFAULT_SMOOTHING DEFAULT_SATURATION) !! i = Some col
      /\ trails col c).
  { clear Hen Hseed. induction frames as [| image frames IH];
      intros st Hen Hlen Hcol; [done |].
    cbn [ticks].
    destruct (analyze_colors st image DEFAULT_WIDTH DEFAULT_HEIGHT
                DEFAULT_SMOOTHING DEFAULT_SATURATION Hen Hlen)
      as (Hen' & Hlen' & Hupd).
    destruct Hcol as (col & Hcol & Htr).
    apply IH; [| done | done |].
    - intros image' Hin. apply Hsam. by right.
    - eexists. split; [by apply Hupd |].
      rewrite (Hsam image) by by left. by apply smooth_trails. }
  apply Hinv; [done | by rewrite Hseed, length_replicate |].
  exists black. split.
  - rewrite Hseed. by apply lookup_replicate_2.
  - unfold rgb_ok, channel_ok, trails in *. simpl. lia.
Qed.
End TickProperties.

Lemma smoothing_extremes_witness :
  let st := fst (init live_backend) in
  last_rgb_colors
    (fst (@analyze_and_set_colors binary64 table_libm int_qcolor
            st white_frame 479 479 1 (5 # 4)))
  = @sample_led binary64 table_libm int_qcolor white_frame 479 479 (5 # 4)
      <$> seq 0 24
  /\ last_rgb_colors
       (fst (@analyze_and_set_colors binary64 table_libm int_qcolor
               st white_frame 479 479 0 (5 # 4)))
     = last_rgb_colors st.
Proof.
  apply (@smoothing_extremes binary64 binary64_laws table_libm int_qcolor).
  - reflexivity.
  - reflexivity.
  - apply Forall_replicate. unfold rgb_ok, channel_ok. simpl. lia.
  - intros i _. rewrite white_frame_sample.
    unfold rgb_ok, channel_ok. simpl. lia.
Defined.

Lemma rising_never_arrives_witness :
  exists col,
    last_rgb_colors
      (@ticks binary64 table_libm int_qcolor (fst (init live_backend))
         (replicate 40 white_frame) DEFAULT_WIDTH DEFAULT_HEIGHT
         DEFAULT_SMOOTHING DEFAULT_SATURATION) !! 7%nat = Some col
    /\ trails col white.
Proof.
  apply (@rising_never_arrives binary64 binary64_laws table_libm int_qcolor).
  - reflexivity.
  - lia.
  - unfold rgb_ok, channel_ok. simpl. lia.
  - intros image Hin. apply elem_of_replicate in Hin as [-> _].
    apply white_frame_sample.
Defined.

(** After 40 ticks on a white frame the LEDs sit at 252. *)
Lemma white_frame_limit :
  last_rgb_colors
    (@ticks binary64 table_libm int_qcolor (fst (init live_backend))
       (replicate 40 white_frame) DEFAULT_WIDTH DEFAULT_HEIGHT
       DEFAULT_SMOOTHING DEFAULT_SATURATION)
  = replicate 24 (mkRGB 252 252 252).
Proof. by vm_compute. Qed.

(** * Further properties of the sampling *)

Section GeometryGeneral.
Context `{FloatLaws} `{!Libm} `{!LibmLaws}.

Lemma ring_offset_general (w r : Z) (t : Q) :
  0 <= r -> 2 * r <= w <= 10000 -> (-1 <= t <= 1)%Q ->
  0 <= py_int (fadd (fdiv (inject_Z w) 2) (fmul (inject_Z r) t)) <= w.
Proof.
  intros Hr Hw Ht. unfold fadd, fdiv, fmul.
  assert (HR : (0 <= inject_Z r)%Q)
    by (change 0%Q with (inject_Z 0); by rewrite <- Zle_Qle).
  assert (HW : (2 * inject_Z r <= inject_Z w)%Q).
  { change 2%Q with (inject_Z 2). rewrite <- inject_Z_mult, <- Zle_Qle. lia. }
  assert (HW' : (inject_Z w <= 10000)%Q).
  { change 10000%Q with (inject_Z 10000). rewrite <- Zle_Qle. lia. }
  assert (Hbounds : (-1 < fl (fl (inject_Z w / 2) + fl (inject_Z r * t))
                     < inject_Z w + 1)%Q).
  { set (W := inject_Z w) in *. set (R := inject_Z r) in *. clearbody W R.
    set (q := (W / 2)%Q).
    assert (Hq : (q == W * (1 # 2))%Q) by (unfold q; field).
    clearbody q.
    pose proof (fl_near q 5000 ltac:(lra)) as Hh.
    set (h := fl q) in *. clearbody h.
    assert (Hrt : (- R <= R * t <= R)%Q) by (split; nra).
    pose proof (fl_near (R * t) 5000 ltac:(lra)) as Hm.
    set (m := fl (R * t)) in *. clearbody m.
    pose proof (fl_near (h + m) 10001 ltac:(lra)) as Hs.
    split; lra. }
  apply py_int_range; [lia | apply Hbounds |].
  rewrite inject_Z_plus. apply Hbounds.
Qed.

Lemma sample_point_within (width height i : Z) :
  0 <= width <= 10000 -> 0 <= height <= 10000 ->
  let '(x, y) := sample_point width height i in
  0 <= x <= width /\ 0 <= y <= height.
Proof.
  intros Hw Hh. unfold sample_point.
  set (r := Z.min width height / 2).
  assert (Hr : 0 <= r /\ 2 * r <= Z.min width height).
  { unfold r. pose proof (Z.div_mod (Z.min width height) 2 ltac:(lia)).
    pose proof (Z.mod_pos_bound (Z.min width height) 2 ltac:(lia)). lia. }
  clearbody r.
  pose proof (ring_offset_general width r _ ltac:(lia) ltac:(lia)
                (math_cos_range (23 - i))).
  pose proof (ring_offset_general height r _ ltac:(lia) ltac:(lia)
                (math_sin_range (23 - i))).
  lia.
Qed.

(** X21.  For any sampling size up to 10000 in each direction, every
    sample point lies in [0 <= x <= width] and [0 <= y <= height]: the
    pixel lookup stays inside any frame that is at least one pixel wider
    and higher than the sampling size, and nothing more is guaranteed
    (with [width = 480] the point [x = 480] is reached). *)
Theorem sample_point_range (width height i : Z) :
  0 <= width <= 10000 -> 0 <= height <= 10000 ->
  0 <= fst (sample_point width height i) <= width
  /\ 0 <= snd (sample_point width height i) <= height.
Proof.
  intros Hw Hh. unfold sample_point. cbn [fst snd].
  set (r := Z.min width height / 2).
  assert (Hr : 0 <= r /\ 2 * r <= Z.min width height).
  { unfold r. pose proof (Z.div_mod (Z.min width height) 2 ltac:(lia)).
    pose proof (Z.mod_pos_bound (Z.min width height) 2 ltac:(lia)). lia. }
  clearbody r.
  pose proof (ring_offset_general width r _ ltac:(lia) ltac:(lia)
                (math_cos_range (23 - i))).
  pose proof (ring_offset_general height r _ ltac:(lia) ltac:(lia)
                (math_sin_range (23 - i))).
  lia.
Qed.
End GeometryGeneral.

Lemma sample_point_range_witness :
  0 <= fst (@sample_point binary64 table_libm 480 480 11) <= 480
  /\ 0 <= snd (@sample_point binary64 table_libm 480 480 11) <= 480.
Proof.
  apply (@sample_point_range binary64 binary64_laws
           table_libm table_libm_laws 480 480 11); lia.
Defined.

(** ** Frames of one colour *)

Lemma bordered_frame_uniform : uniform bordered_frame.
Proof.
  exists white. intros x y Hx Hy. unfold bordered_frame in *.
  cbn [img_width img_height pixel] in *.
  rewrite (proj2 (Z.leb_le 0 x)), (proj2 (Z.ltb_lt x 480)),
          (proj2 (Z.leb_le 0 y)), (proj2 (Z.ltb_lt y 480)) by lia.
  done.
Qed.

Section UniformFrames.
Context `{FloatLaws} `{!Libm} `{!LibmLaws} `{QColorApi}.

(** Inside a frame of one colour that is larger than the sampling size,
    every LED reads the same colour. *)
Lemma uniform_sample (image : QImage) (width height : Z) (sat : Q) (i j : nat) :
  0 <= width <= 10000 -> 0 <= height <= 10000 ->
  uniform image ->
  width < img_width image -> height < img_height image ->
  sample_led image width height sat i = sample_led image width height sat j.
Proof.
  intros Hw Hh [c Hu] HW HH. unfold sample_led.
  pose proof (sample_point_within width height (Z.of_nat i) Hw Hh) as Hi.
  pose proof (sample_point_within width height (Z.of_nat j) Hw Hh) as Hj.
  destruct (sample_point width height (Z.of_nat i)) as [x y].
  destruct (sample_point width height (Z.of_nat j)) as [x' y'].
  by rewrite (Hu x y), (Hu x' y') by lia.
Qed.

(** X20.  Frames of one colour give 24 equal LEDs, provided every frame
    is larger than the sampling size in both directions (as the 480 by
    480 capture is for the default size 479): starting from the seed,
    after any number of ticks on such frames, with any factors and any
    sampling size up to 10000, the 24 persisted colours are one and the
    same colour.  Only the pixels inside the frame are assumed to be of
    one colour. *)
Theorem uniform_frames (backend : Backend) (frames : list QImage)
    (width height : Z) (alpha sat : Q) :
  enabled (fst (init backend)) = true ->
  0 <= width <= 10000 -> 0 <= height <= 10000 ->
  Forall (fun image => uniform image
                       /\ width < img_width image
                       /\ height < img_height image) frames ->
  exists c,
    last_rgb_colors
      (ticks (fst (init backend)) frames width height alpha sat)
    = replicate 24 c.
Proof.
  intros Hen Hw Hh Hframes. pose proof (init_enabled backend Hen) as Hseed.
  assert (Hinv : forall st c0,
    enabled st = true -> last_rgb_colors st = replicate 24 c0 ->
    exists c,
      last_rgb_colors (ticks st frames width height alpha sat)
      = replicate 24 c).
  { clear Hen Hseed.
    induction Hframes as [| image frames (Hu & HW & HH) _ IH];
      intros st c0 Hen Hcols; [by exists c0 |].
    cbn [ticks].
    destruct (analyze_colors st image width height alpha sat Hen)
      as (Hen' & Hlen' & Hupd); [by rewrite Hcols, length_replicate |].
    apply (IH _ (smooth alpha c0 (sample_led image width height sat 0)));
      [done |].
    apply list_eq. intros i. destruct (Nat.lt_ge_cases i 24) as [Hi | Hi].
    - rewrite (Hupd i c0 Hi) by (rewrite Hcols; by apply lookup_replicate_2).
      rewrite lookup_replicate_2 by done.
      by rewrite (uniform_sample image width height sat i 0 Hw Hh Hu HW HH).
    - rewrite !lookup_ge_None_2; [done | | lia].
      rewrite length_replicate. lia. }
  by apply (Hinv _ black).
Qed.
End UniformFrames.

Lemma uniform_frames_witness :
  exists c,
    last_rgb_colors
      (@ticks binary64 table_libm int_qcolor (fst (init live_backend))
         [bordered_frame; bordered_frame] 479 479 (1 # 4) (5 # 4))
    = replicate 24 c.
Proof.
  apply (@uniform_frames binary64 binary64_laws table_libm table_libm_laws
           int_qcolor);
    [reflexivity | lia | lia |].
  repeat constructor; apply bordered_frame_uniform.
Defined.

(** The size condition is needed: nothing in the code clamps the sample
    point.  Sampling the same frame with [width = height = 480] reads LEDs
    11 and 17 at [(480, 240)] and [(240, 480)], outside the frame, and the
    24 colours are no longer equal. *)
Lemma uniform_frames_size_needed :
  @sample_point binary64 table_libm 480 480 17 = (240, 480)
  /\ ~ exists c,
       last_rgb_colors
         (@ticks binary64 table_libm int_qcolor (fst (init live_backend))
            [bordered_frame] 480 480 (1 # 4) (5 # 4))
       = replicate 24 c.
Proof.
  split; [by vm_compute |]. intros [c Hc]. vm_compute in Hc.
  injection Hc as Hc0 _ _ _ _ _ _ _ _ _ _ Hc11 _. congruence.
Qed.

Section SaturationProfile.
Context `{FloatLaws}.

(** X22.  The saturation boost with the default factor never lowers a
    saturation and is monotone; below 204 it adds a quarter, rounded
    down, and from 204 on the result is capped at 255. *)
Theorem boosted_saturation_profile (s s' : Z) :
  0 <= s <= s' -> s' <= 255 ->
  s <= boosted_saturation DEFAULT_SATURATION s <= 255
  /\ boosted_saturation DEFAULT_SATURATION s
     <= boosted_saturation DEFAULT_SATURATION s'
  /\ (s < 204 -> boosted_saturation DEFAULT_SATURATION s = s + s / 4)
  /\ (204 <= s -> boosted_saturation DEFAULT_SATURATION s = 255).
Proof.
  intros Hs Hs'.
  rewrite !boosted_saturation_default by lia.
  assert (E : forall z, 5 * z / 4 = z + z / 4).
  { intros z. replace (5 * z) with (z + z * 4) by lia.
    rewrite Z.div_add by lia. lia. }
  rewrite !E.
  pose proof (Z.div_mod s 4 ltac:(lia)).
  pose proof (Z.mod_pos_bound s 4 ltac:(lia)).
  pose proof (Z.div_mod s' 4 ltac:(lia)).
  pose proof (Z.mod_pos_bound s' 4 ltac:(lia)).
  split_and!; lia.
Qed.
End SaturationProfile.

Lemma boosted_saturation_profile_witness :
  203 <= @boosted_saturation binary64 DEFAULT_SATURATION 203 <= 255
  /\ @boosted_saturation binary64 DEFAULT_SATURATION 203
     <= @boosted_saturation binary64 DEFAULT_SATURATION 204
  /\ (203 < 204 ->
      @boosted_saturation binary64 DEFAULT_SATURATION 203 = 203 + 203 / 4)
  /\ (204 <= 203 -> @boosted_saturation binary64 DEFAULT_SATURATION 203 = 255).
Proof.
  apply (@boosted_saturation_profile binary64 binary64_laws 203 204); lia.
Defined.

(** * Properties of the save-state handler *)

Section SaveStateProperties.
Context {Pos Transform Snapshot : Type}.
Context `{EqDecision Pos} `{EqDecision Transform}.
Implicit Types (st : SaveStateHandler Pos Transform).
Implicit Types (acts : list (save_action Pos Transform Snapshot)).

Lemma save_step_first_load st (a : save_action Pos Transform Snapshot) :
  is_first_load st = true -> is_load a = false ->
  save_image_state_flag st = false ->
  (save_step st a).2 = []
  /\ is_first_load (save_step st a).1 = true
  /\ save_image_state_flag (save_step st a).1 = false.
Proof.
  intros Hfl Ha Hflag. destruct a as [| p t | state | | state]; [done | | | |].
  - cbn [save_step]. destruct (check_state_timer_active st); [| done].
    cbn [fst snd]. unfold check_state.
    destruct p, t; try done.
    destruct (_ || _); [| done]. by rewrite Hfl.
  - cbn [save_step]. destruct (save_image_state_timer_active st); [| done].
    unfold handle_save_image_state_timeout. by rewrite Hflag.
  - cbn [save_step fst snd]. unfold restart_save_image_state_timer.
    by rewrite Hfl.
  - cbn [save_step fst snd]. unfold save_image_state. by rewrite Hfl.
Qed.

(** X23.  Nothing is saved before the state has been loaded: as long as
    [load_image_state] has not run, no timer, no slider or image change
    and no startup-checkbox click writes the state file or raises the
    save flag. *)
Theorem no_save_before_load acts :
  Forall (fun a => is_load a = false) acts ->
  (save_run save_state_init acts).2 = []
  /\ is_first_load (save_run save_state_init acts).1 = true
  /\ save_image_state_flag (save_run save_state_init acts).1 = false.
Proof.
  intros Hacts.
  assert (Hinv : forall st,
    is_first_load st = true -> save_image_state_flag st = false ->
    (save_run st acts).2 = []
    /\ is_first_load (save_run st acts).1 = true
    /\ save_image_state_flag (save_run st acts).1 = false).
  { induction Hacts as [| a acts Ha _ IH]; intros st Hfl Hflag; [done |].
    cbn [save_run].
    destruct (save_step_first_load st a Hfl Ha Hflag) as (Hw & Hfl' & Hflag').
    destruct (save_step st a) as [st1 w1]. cbn [fst snd] in *.
    destruct (IH st1 Hfl' Hflag') as (Hw2 & ? & ?).
    destruct (save_run st1 acts) as [st2 w2]. cbn [fst snd] in *.
    by rewrite Hw, Hw2. }
  by apply Hinv.
Qed.

Lemma save_step_budget st (a : save_action Pos Transform Snapshot) :
  is_save_now a = false ->
  (length (save_step st a).2
   + (if save_image_state_flag (save_step st a).1 then 1 else 0)
   <= (if is_trigger a then 1 else 0)
      + (if save_image_state_flag st then 1 else 0))%nat.
Proof.
  intros Ha. destruct a as [| p t | state | | state]; [| | | | done];
    cbn [save_step is_trigger].
  - unfold load_image_state.
    destruct (is_first_load st) eqn:E1, (save_image_state_flag st) eqn:E2;
      cbn; rewrite ?E1, ?E2; cbn; lia.
  - destruct (check_state_timer_active st); cbn [fst snd length]; [| lia].
    unfold check_state. destruct p, t; try lia.
    destruct (_ || _); [| lia]. cbn [save_image_state_flag].
    unfold restart_save_image_state_timer.
    destruct (is_first_load st) eqn:E1, (save_image_state_flag st) eqn:E2;
      cbn; rewrite ?E1, ?E2; cbn; lia.
  - destruct (save_image_state_timer_active st); cbn [fst snd length]; [| lia].
    unfold handle_save_image_state_timeout, save_image_state.
    destruct (is_first_load st) eqn:E1, (save_image_state_flag st) eqn:E2;
      cbn; rewrite ?E1, ?E2; cbn; lia.
  - cbn [fst snd length]. unfold restart_save_image_state_timer.
    destruct (is_first_load st) eqn:E1, (save_image_state_flag st) eqn:E2;
      cbn; rewrite ?E1, ?E2; cbn; lia.
Qed.

(** X24.  The save timer debounces.  Leaving aside the direct save of
    [update_startup], the number of saves never exceeds the number of
    events that can raise the save flag (a [check_state] tick or a
    restart of the save timer): every save by the timer consumes the
    flag, so a timer that keeps firing saves once per change at most. *)
Theorem saves_bounded acts :
  Forall (fun a => is_save_now a = false) acts ->
  (length (save_run save_state_init acts).2
   <= length (filter (fun a => is_trigger a = true) acts))%nat.
Proof.
  intros Hacts.
  assert (Hinv : forall st,
    (length (save_run st acts).2
     + (if save_image_state_flag (save_run st acts).1 then 1 else 0)
     <= length (filter (fun a => is_trigger a = true) acts)
        + (if save_image_state_flag st then 1 else 0))%nat).
  { induction Hacts as [| a acts Ha _ IH]; intros st; [cbn; lia |].
    cbn [save_run]. pose proof (save_step_budget st a Ha) as Hstep.
    destruct (save_step st a) as [st1 w1]. cbn [fst snd] in *.
    specialize (IH st1).
    destruct (save_run st1 acts) as [st2 w2]. cbn [fst snd] in *.
    rewrite length_app, filter_cons.
    destruct (decide (is_trigger a = true)) as [E | E].
    - rewrite E in Hstep. simpl length. lia.
    - destruct (is_trigger a); [done |]. lia. }
  specialize (Hinv save_state_init). cbn [save_image_state_flag save_state_init] in Hinv.
  destruct (save_image_state_flag _); lia.
Qed.

(** X25.  [check_state] detects changes and nothing else.  A call whose
    position and transform are those already recorded leaves the handler
    as it is; after a call the readings are recorded, so repeating it
    does nothing; and once the state is loaded, a call with a changed
    position or transform raises the save flag and starts the save
    timer. *)
Theorem check_state_changes st (p : Pos) (t : Transform) :
  (old_pos st = Some p -> old_transform st = Some t ->
   check_state st (Some p) (Some t) = st)
  /\ check_state (check_state st (Some p) (Some t)) (Some p) (Some t)
     = check_state st (Some p) (Some t)
  /\ (is_first_load st = false ->
      old_pos st <> Some p \/ old_transform st <> Some t ->
      save_image_state_flag (check_state st (Some p) (Some t)) = true
      /\ save_image_state_timer_active (check_state st (Some p) (Some t))
         = true).
Proof.
  assert (Hsame : forall st', old_pos st' = Some p -> old_transform st' = Some t ->
                  check_state st' (Some p) (Some t) = st').
  { intros st' Hp Ht. unfold check_state. rewrite Hp, Ht.
    rewrite !bool_decide_eq_false_2 by (intros Hne; by apply Hne). done. }
  split_and!.
  - apply Hsame.
  - assert (Hrec : old_pos (check_state st (Some p) (Some t)) = Some p
                   /\ old_transform (check_state st (Some p) (Some t)) = Some t).
    { unfold check_state. destruct (_ || _) eqn:E; [done |].
      apply orb_false_iff in E as [E1 E2].
      apply bool_decide_eq_false in E1, E2.
      split.
      - by destruct (decide (Some p = old_pos st)) as [<- |].
      - by destruct (decide (Some t = old_transform st)) as [<- |]. }
    destruct Hrec as [Hp Ht]. by apply Hsame.
  - intros Hfl Hch. unfold check_state.
    assert (E : bool_decide (Some p <> old_pos st)
                || bool_decide (Some t <> old_transform st) = true).
    { apply orb_true_iff. destruct Hch as [Hp | Ht].
      - left. apply bool_decide_eq_true. congruence.
      - right. apply bool_decide_eq_true. congruence. }
    rewrite E, Hfl. cbn [negb]. unfold restart_save_image_state_timer.
    by rewrite Hfl.
Qed.

(** X26.  After loading, a change is saved once.  Whatever the handler's
    state, once [load_image_state] has run, a restart of the save timer
    followed by the timer's timeout saves exactly the state read at that
    timeout, and a further timeout saves nothing; loading a second time
    changes nothing. *)
Theorem change_saved_once st (state state' : Snapshot) :
  let st1 := restart_save_image_state_timer (load_image_state st) in
  save_step st1 (SaSaveTimeout state)
  = (mkSaveState (old_pos st) false
                 (check_state_timer_active (load_image_state st))
                 true false (old_transform st),
     [state])
  /\ (save_step (save_step st1 (SaSaveTimeout state)).1
                (SaSaveTimeout state')).2 = []
  /\ load_image_state (load_image_state st) = load_image_state st.
Proof.
  destruct st as [op fl ct stt flag ot].
  unfold load_image_state, restart_save_image_state_timer.
  destruct fl; cbn; done.
Qed.
End SaveStateProperties.

Lemma no_save_before_load_witness :
  let acts : list (save_action (Z * Z) (Z * Z) nat) :=
    [SaRestart; SaCheckTimeout (Some (1, 2)) (Some (1, 1));
     SaSaveTimeout 7%nat; SaSaveNow 8%nat] in
  (save_run save_state_init acts).2 = []
  /\ is_first_load (save_run save_state_init acts).1 = true
  /\ save_image_state_flag (save_run save_state_init acts).1 = false.
Proof.
  apply (no_save_before_load (Pos := Z * Z) (Transform := Z * Z)).
  repeat constructor.
Defined.

Lemma saves_bounded_witness :
  let acts : list (save_action (Z * Z) (Z * Z) nat) :=
    [SaLoad; SaRestart; SaRestart; SaSaveTimeout 1%nat; SaSaveTimeout 2%nat;
     SaCheckTimeout (Some (3, 4)) (Some (1, 1)); SaSaveTimeout 3%nat] in
  (length (save_run save_state_init acts).2
   <= length (filter (fun a => is_trigger a = true) acts))%nat.
Proof.
  apply (saves_bounded (Pos := Z * Z) (Transform := Z * Z)).
  repeat constructor.
Defined.

(** Two restarts before the timeout give one save; the later change gives
    another. *)
Lemma save_run_example :
  (save_run (Pos := Z * Z) (Transform := Z * Z) save_state_init
     [SaLoad; SaRestart; SaRestart; SaSaveTimeout 1%nat; SaSaveTimeout 2%nat;
      SaCheckTimeout (Some (3, 4)) (Some (1, 1)); SaSaveTimeout 3%nat]).2
  = [1%nat; 3%nat].
Proof. by vm_compute. Qed.
